(** * uv: event loop, default allocator, Pipe and TCP handles

    A shallow embedding of [uv/loop.py], [uv/handles/pipe.py] and
    [uv/handles/tcp.py].  Python objects are records, methods are state
    transformers in a small state-and-exception monad, and the C library
    (libuv, reached through cffi's [lib]) is an interface whose functions
    are supplied by an instance. *)

From Stdlib Require Import ZArith List Lia.
From Stdlib.Strings Require Import Byte.
From stdpp Require Import base gmap sets list strings.
Import ListNotations.

Local Open Scope Z_scope.

(** ** Python runtime: exceptions and the execution monad *)

Module Py.

(** The exceptions the embedded code raises or lets through. *)
Inductive exn : Type :=
| ClosedLoopError
| ClosedHandleError
| UVError (code : Z)
| KeyError
| AttributeError
| TypeError
| NameError (name : string)
| OSError
| UnicodeDecodeError
| ValueError
| MemoryError
| OverflowError
| SystemExit (status : Z)
| AppError (tag : nat).

Inductive outcome (A : Type) : Type :=
| Return (a : A)
| Raise (e : exn).
Arguments Return {A} a.
Arguments Raise {A} e.

(** A method body: it reads and writes the store [S] and either returns
    or raises.  Writes made before a [raise] stay in the store. *)
Definition M (S A : Type) : Type := S -> outcome A * S.

Definition ret {S A} (a : A) : M S A := fun s => (Return a, s).

Definition raise {S A} (e : exn) : M S A := fun s => (Raise e, s).

Definition bind {S A B} (m : M S A) (k : A -> M S B) : M S B :=
  fun s => match m s with
           | (Return a, s') => k a s'
           | (Raise e, s') => (Raise e, s')
           end.

Definition get {S} : M S S := fun s => (Return s, s).

Definition gets {S A} (f : S -> A) : M S A := fun s => (Return (f s), s).

Definition modify {S} (f : S -> S) : M S unit := fun s => (Return tt, f s).

(** [try: body / except: handler] with a bare [except], which catches
    every exception, [SystemExit] included. *)
Definition try_except {S A} (body : M S A) (handler : exn -> M S A) : M S A :=
  fun s => match body s with
           | (Return a, s') => (Return a, s')
           | (Raise e, s') => handler e s'
           end.

(** [try: body / finally: fin].  An exception raised by [fin] replaces
    whatever [body] produced. *)
Definition try_finally {S A} (body : M S A) (fin : M S unit) : M S A :=
  fun s => match body s with
           | (r, s') =>
               match fin s' with
               | (Return _, s'') => (r, s'')
               | (Raise e, s'') => (Raise e, s'')
               end
           end.

(** [for x in xs: body x] *)
Fixpoint for_each {S X} (xs : list X) (body : X -> M S unit) : M S unit :=
  match xs with
  | [] => ret tt
  | x :: rest => bind (body x) (fun _ => for_each rest body)
  end.

End Py.

Import Py.

Declare Scope py_scope.
Delimit Scope py_scope with py.
Notation "'let*' x ':=' m 'in' k" := (bind m (fun x => k))
  (at level 10, x name, m at level 100, k at level 200) : py_scope.
Notation "m ;;; k" := (bind m (fun _ => k))
  (at level 100, k at level 200, right associativity) : py_scope.
Local Open Scope py_scope.

(** ** [uv.library]: buffers shared with the C side *)

Module library.

(** A C address.  [NULL] is [ffi.NULL]. *)
Definition addr : Type := Z.
Definition NULL : addr := 0.

(** Raw memory as cffi sees it: bytes at addresses, no bounds. *)
Definition memory : Type := addr -> byte.

(** [uv_buf_t]: a base pointer and a length. *)
Record uv_buf_t : Type := mk_buf { buf_base : addr; buf_len : Z }.

(** [library.uv_buffer_set(uv_buf, c_base, length)] stores both fields. *)
Definition uv_buffer_set (uv_buf : uv_buf_t) (c_base : addr) (length : Z) : uv_buf_t :=
  {| buf_base := c_base; buf_len := length |}.

(** [library.uv_buffer_get_base(uv_buf)] *)
Definition uv_buffer_get_base (uv_buf : uv_buf_t) : addr := buf_base uv_buf.

(** [bytes(ffi.buffer(c_base, length))]: the [length] bytes of memory
    that start at [c_base]. *)
Definition ffi_buffer (mem : memory) (c_base : addr) (length : Z) : list byte :=
  map (fun i : nat => mem (c_base + Z.of_nat i)) (seq 0 (Z.to_nat length)).

(** The bytes of a [char[]] object that [ffi.new] placed at [c_base]. *)
Definition stores (mem : memory) (c_base : addr) (content : list byte) : Prop :=
  forall i b, nth_error content i = Some b -> mem (c_base + Z.of_nat i) = b.

End library.

Import library.

(** ** [uv.loop]: allocators *)

Module allocator.

Definition handle : Type := nat.

(** [class Allocator]: the abstract interface.  [allocate] fills the
    [uv_buf_t] it is given (and may raise, being application code);
    [finalize] turns the filled buffer into a byte string. *)
Class Allocator (A : Type) : Type := {
  allocate : A -> handle -> Z -> uv_buf_t -> outcome unit * A * uv_buf_t;
  finalize : A -> handle -> Z -> uv_buf_t -> memory -> outcome (list byte) * A
}.

(** [class DefaultAllocator]: one buffer and its in-use flag. *)
Record DefaultAllocator : Type := mk_default_allocator {
  buffer_size : Z;
  buffer_in_use : bool;
  c_buffer : addr
}.

(** [DefaultAllocator.__init__(buffer_size=2**16)]; [fresh] is the
    address [ffi.new('char[]', buffer_size)] returns. *)
Definition DefaultAllocator_init (fresh : addr) (size : option Z) : DefaultAllocator :=
  {| buffer_size := match size with Some n => n | None => 2 ^ 16 end;
     buffer_in_use := false;
     c_buffer := fresh |}.

Definition set_in_use (b : bool) (a : DefaultAllocator) : DefaultAllocator :=
  {| buffer_size := buffer_size a; buffer_in_use := b; c_buffer := c_buffer a |}.

(** [DefaultAllocator.allocate] *)
Definition default_allocate (self : DefaultAllocator) (h : handle)
    (suggested_size : Z) (uv_buf : uv_buf_t)
  : outcome unit * DefaultAllocator * uv_buf_t :=
  let uv_buf' :=
    if buffer_in_use self
    then uv_buffer_set uv_buf NULL 0
    else uv_buffer_set uv_buf (c_buffer self) (buffer_size self) in
  (Return tt, set_in_use true self, uv_buf').

(** [DefaultAllocator.finalize] *)
Definition default_finalize (self : DefaultAllocator) (uv_handle : handle)
    (length : Z) (uv_buf : uv_buf_t) (mem : memory)
  : outcome (list byte) * DefaultAllocator :=
  let self' := set_in_use false self in
  let c_base := uv_buffer_get_base uv_buf in
  (Return (if 0 <? length then ffi_buffer mem c_base length else []), self').

#[export] Instance DefaultAllocator_Allocator : Allocator DefaultAllocator :=
  {| allocate := default_allocate; finalize := default_finalize |}.

(** An application allocator whose [allocate] raises: it leaves the
    buffer as it found it. *)
Record RaisingAllocator : Type := mk_raising { raising_tag : nat }.

#[export] Instance RaisingAllocator_Allocator : Allocator RaisingAllocator :=
  {| allocate := fun a _ _ buf => (Raise (AppError (raising_tag a)), a, buf);
     finalize := fun a _ _ _ _ => (Return [], a) |}.

End allocator.

Import allocator.

(** ** [uv.loop]: the event loop *)

Module loop.

(** [class RunModes] *)
Inductive RunModes : Type := DEFAULT | ONCE | NOWAIT.

(** The part of libuv that [Loop] calls through [lib].  A value of
    [uv_loop_t] is the C loop as libuv currently holds it; calls that
    change it return the new one.  Callbacks that libuv dispatches
    while [uv_run] executes are not part of this interface: [uv_run]
    stands for a call that has come back, and what the callbacks did
    shows in the C loop it returns only.  A [run] that does not come
    back, and callbacks that construct or run other loops, are outside
    what is stated about [run] below. *)
Class Lib : Type := {
  uv_loop_t : Type;
  uv_loop_alive : uv_loop_t -> Z;
  uv_now : uv_loop_t -> Z;
  uv_backend_fd : uv_loop_t -> Z;
  uv_update_time : uv_loop_t -> uv_loop_t;
  uv_backend_timeout : uv_loop_t -> Z;
  uv_run : uv_loop_t -> RunModes -> Z * uv_loop_t;
  uv_stop : uv_loop_t -> uv_loop_t;
  uv_loop_close : uv_loop_t -> Z * uv_loop_t
}.

Definition loop_id : Type := nat.
Definition request : Type := nat.
Definition callback : Type := nat.

(** What [sys.exc_info()] returns. *)
Record exc_info : Type := mk_exc_info {
  info_type : option string;
  info_value : option exn;
  info_traceback : option nat
}.

(** The value of [Loop.excepthook]: the module's [default_excepthook],
    or a function the application assigned.  An application hook is
    known here by how its call ends; what else it does is its own. *)
Inductive Hook : Type :=
| default_hook
| application_hook (result : outcome unit).

(** What the loop does to the outside: output, calls into application
    code and calls on other objects. *)
Inductive event : Type :=
| Stdout (line : string)
| Stderr (line : string)
| PrintException (info : exc_info)
| PrintExc (current : exn)
| HookCall (l : loop_id) (info : exc_info)
| HandleClose (h : handle) (cb : option callback).

Section WithLib.
Context `{Lib} {A : Type} `{Allocator A}.

(** A [Loop] instance. *)
Record Loop : Type := mk_loop {
  self_id : loop_id;
  uv_loop : option uv_loop_t;
  allocator : A;
  excepthook : Hook;
  exc_type : option string;
  exc_value : option exn;
  exc_traceback : option nat;
  handles : gset handle;
  requests : gset request;
  closed : bool
}.

(** The store a method runs in: the class attributes of [Loop], the
    calling thread's [Loop._thread_locals.loop] ([None] while the
    attribute is not set), whether the two output streams accept
    writes, the events so far (newest first) and the instance. *)
Record World : Type := mk_world {
  Loop_default : option loop_id;
  Loop_loops : gset loop_id;
  thread_locals_loop : option (option loop_id);
  stdout_ok : bool;
  stderr_ok : bool;
  events : list event;
  self : Loop
}.

Definition with_self (f : Loop -> Loop) (w : World) : World :=
  {| Loop_default := Loop_default w; Loop_loops := Loop_loops w;
     thread_locals_loop := thread_locals_loop w;
     stdout_ok := stdout_ok w; stderr_ok := stderr_ok w;
     events := events w; self := f (self w) |}.

Definition set_loops (ls : gset loop_id) (w : World) : World :=
  {| Loop_default := Loop_default w; Loop_loops := ls;
     thread_locals_loop := thread_locals_loop w;
     stdout_ok := stdout_ok w; stderr_ok := stderr_ok w;
     events := events w; self := self w |}.

Definition set_thread_locals_loop (v : option (option loop_id)) (w : World) : World :=
  {| Loop_default := Loop_default w; Loop_loops := Loop_loops w;
     thread_locals_loop := v;
     stdout_ok := stdout_ok w; stderr_ok := stderr_ok w;
     events := events w; self := self w |}.

Definition emit (e : event) (w : World) : World :=
  {| Loop_default := Loop_default w; Loop_loops := Loop_loops w;
     thread_locals_loop := thread_locals_loop w;
     stdout_ok := stdout_ok w; stderr_ok := stderr_ok w;
     events := e :: events w; self := self w |}.

Definition set_uv_loop (u : option uv_loop_t) (l : Loop) : Loop :=
  {| self_id := self_id l; uv_loop := u; allocator := allocator l;
     excepthook := excepthook l; exc_type := exc_type l;
     exc_value := exc_value l; exc_traceback := exc_traceback l;
     handles := handles l; requests := requests l; closed := closed l |}.

Definition set_allocator (a : A) (l : Loop) : Loop :=
  {| self_id := self_id l; uv_loop := uv_loop l; allocator := a;
     excepthook := excepthook l; exc_type := exc_type l;
     exc_value := exc_value l; exc_traceback := exc_traceback l;
     handles := handles l; requests := requests l; closed := closed l |}.

Definition set_exc (i : exc_info) (l : Loop) : Loop :=
  {| self_id := self_id l; uv_loop := uv_loop l; allocator := allocator l;
     excepthook := excepthook l; exc_type := info_type i;
     exc_value := info_value i; exc_traceback := info_traceback i;
     handles := handles l; requests := requests l; closed := closed l |}.

Definition set_closed (b : bool) (l : Loop) : Loop :=
  {| self_id := self_id l; uv_loop := uv_loop l; allocator := allocator l;
     excepthook := excepthook l; exc_type := exc_type l;
     exc_value := exc_value l; exc_traceback := exc_traceback l;
     handles := handles l; requests := requests l; closed := b |}.

(** [lib.f(self.uv_loop)]: cffi refuses [None] where a
    [uv_loop_t*] is expected. *)
Definition lib_call {X} (f : uv_loop_t -> X * uv_loop_t) : M World X :=
  fun w => match uv_loop (self w) with
           | None => (Raise TypeError, w)
           | Some u => let (x, u') := f u in
                       (Return x, with_self (set_uv_loop (Some u')) w)
           end.

Definition lib_read {X} (f : uv_loop_t -> X) : M World X :=
  lib_call (fun u => (f u, u)).

(** [print(line)] and [print(line, file=sys.stderr)] *)
Definition print_stdout (line : string) : M World unit :=
  fun w => if stdout_ok w then (Return tt, emit (Stdout line) w)
           else (Raise OSError, w).

Definition print_stderr (line : string) : M World unit :=
  fun w => if stderr_ok w then (Return tt, emit (Stderr line) w)
           else (Raise OSError, w).

(** [traceback.print_exception(...)] and [traceback.print_exc()]
    write to [sys.stderr]. *)
Definition traceback_print_exception (i : exc_info) : M World unit :=
  fun w => if stderr_ok w then (Return tt, emit (PrintException i) w)
           else (Raise OSError, w).

Definition traceback_print_exc (current : exn) : M World unit :=
  fun w => if stderr_ok w then (Return tt, emit (PrintExc current) w)
           else (Raise OSError, w).

(** [sys.exit(status)] *)
Definition sys_exit {X} (status : Z) : M World X := raise (SystemExit status).

(** [Loop.alive] *)
Definition alive : M World bool :=
  let* c := gets (fun w => closed (self w)) in
  if c then ret false
  else let* r := lib_read uv_loop_alive in ret (negb (r =? 0)).

(** [Loop.now] *)
Definition now : M World Z :=
  let* c := gets (fun w => closed (self w)) in
  if c then raise ClosedLoopError else lib_read uv_now.

(** [Loop.fileno] *)
Definition fileno : M World Z :=
  let* c := gets (fun w => closed (self w)) in
  if c then raise ClosedLoopError else lib_read uv_backend_fd.

(** [Loop.make_current] *)
Definition make_current : M World unit :=
  modify (fun w => set_thread_locals_loop (Some (Some (self_id (self w)))) w).

(** [Loop.update_time] *)
Definition update_time : M World unit :=
  let* c := gets (fun w => closed (self w)) in
  if c then raise ClosedLoopError
  else lib_call (fun u => (tt, uv_update_time u)).

(** [Loop.get_timeout] *)
Definition get_timeout : M World Z :=
  let* c := gets (fun w => closed (self w)) in
  if c then raise ClosedLoopError else lib_read uv_backend_timeout.

(** [Loop.run] *)
Definition run (mode : RunModes) : M World bool :=
  let* c := gets (fun w => closed (self w)) in
  if c then raise ClosedLoopError
  else make_current ;;;
       let* r := lib_call (fun u => uv_run u mode) in
       ret (negb (r =? 0)).

(** [Loop.stop] *)
Definition stop : M World unit :=
  let* c := gets (fun w => closed (self w)) in
  if c then ret tt
  else lib_call (fun u => (tt, uv_stop u)).

(** [Loop.close] *)
Definition close : M World unit :=
  let* c := gets (fun w => closed (self w)) in
  if c then ret tt
  else
    let* code := lib_call uv_loop_close in
    if code <? 0 then raise (UVError code)
    else
      modify (with_self (set_uv_loop None)) ;;;
      modify (with_self (set_closed true)) ;;;
      let* w := get in
      (if decide (self_id (self w) ∈ Loop_loops w)
       then modify (set_loops (Loop_loops w ∖ {[ self_id (self w) ]}))
       else raise KeyError) ;;;
      match thread_locals_loop w with
      | None => raise AttributeError
      | Some cur =>
          if decide (cur = Some (self_id (self w)))
          then modify (set_thread_locals_loop (Some None))
          else ret tt
      end.

(** [Loop.close_all_handles] *)
Definition close_all_handles (cb : option callback) : M World unit :=
  let* hs := gets (fun w => elements (handles (self w))) in
  for_each hs (fun h => modify (emit (HandleClose h cb))).

(** [default_excepthook] *)
Definition default_excepthook (i : exc_info) : M World unit :=
  print_stderr "Exception happened during callback execution!" ;;;
  traceback_print_exception i ;;;
  stop.

(** [self.excepthook(self, ...)] *)
Definition call_excepthook (i : exc_info) : M World unit :=
  let* w := get in
  match excepthook (self w) with
  | default_hook => default_excepthook i
  | application_hook result =>
      modify (emit (HookCall (self_id (self w)) i)) ;;;
      (fun w' => (result, w'))
  end.

(** [Loop.handle_exception]; [current] is what [sys.exc_info()]
    returns where the method is called. *)
Definition handle_exception (current : exc_info) : M World unit :=
  modify (with_self (set_exc current)) ;;;
  try_except (call_excepthook current)
    (fun e =>
       try_finally
         (print_stdout "[CRITICAL] error while executing excepthook!" ;;;
          traceback_print_exc e)
         (sys_exit 1)).

(** [uv_alloc_cb]: the C callback that obtains a read buffer.  It
    returns nothing; its effect is on the loop's allocator and on
    the [uv_buf_t] libuv passed in. *)
Definition uv_alloc_cb (uv_handle : handle) (suggested_size : Z)
    (uv_buf : uv_buf_t) (w : World) : World * uv_buf_t :=
  match allocate (allocator (self w)) uv_handle suggested_size uv_buf with
  | (Return _, a', buf') => (with_self (set_allocator a') w, buf')
  | (Raise _, a', buf') =>
      (with_self (set_allocator a') w, uv_buffer_set buf' NULL 0)
  end.

(** The methods of a [Loop] instance, as one can call them in turn. *)
Inductive op : Type :=
| Alive | Now | Fileno | MakeCurrent | UpdateTime | GetTimeout
| Run (mode : RunModes) | Stop | Close
| CloseAllHandles (cb : option callback)
| HandleException (current : exc_info).

Inductive value : Type := VNone | VBool (b : bool) | VInt (z : Z).

Definition call (o : op) : M World value :=
  match o with
  | Alive => let* b := alive in ret (VBool b)
  | Now => let* z := now in ret (VInt z)
  | Fileno => let* z := fileno in ret (VInt z)
  | MakeCurrent => make_current ;;; ret VNone
  | UpdateTime => update_time ;;; ret VNone
  | GetTimeout => let* z := get_timeout in ret (VInt z)
  | Run mode => let* b := run mode in ret (VBool b)
  | Stop => stop ;;; ret VNone
  | Close => close ;;; ret VNone
  | CloseAllHandles cb => close_all_handles cb ;;; ret VNone
  | HandleException current => handle_exception current ;;; ret VNone
  end.

(** The store after a sequence of calls, whatever each one returned
    or raised. *)
Fixpoint after (ops : list op) (w : World) : World :=
  match ops with
  | [] => w
  | o :: rest => after rest (snd (call o w))
  end.

(** What [handle_exception] does once it has recorded the exception. *)
Definition after_recording (current : exc_info) : M World unit :=
  try_except (call_excepthook current)
    (fun e =>
       try_finally
         (print_stdout "[CRITICAL] error while executing excepthook!" ;;;
          traceback_print_exc e)
         (sys_exit 1)).

(** What every method leaves alone, except where it says otherwise: a
    set [closed] flag, the recorded exception, the identity and the
    hook of the instance; and the events only grow. *)
Record steady (w w' : World) : Prop := {
  steady_closed : closed (self w) = true -> closed (self w') = true;
  steady_exc : exc_type (self w') = exc_type (self w) /\
               exc_value (self w') = exc_value (self w) /\
               exc_traceback (self w') = exc_traceback (self w);
  steady_id : self_id (self w') = self_id (self w);
  steady_hook : excepthook (self w') = excepthook (self w);
  steady_events : exists new, events w' = new ++ events w
}.

Definition Steady {X} (m : M World X) : Prop := forall w, steady w (m w).2.

End WithLib.

Arguments Loop {_} A.
Arguments World {_} A.

End loop.

(** ** [uv.handles.pipe] *)

Module pipe.

(** Modelled from the spec: the [closing] property of [uv.Handle], whose
    class is not in [pipe.py].  A Handle is open, closing or closed, and
    [closing] holds once closing has begun, so also when closed. *)
Inductive lifecycle : Type := Open | Closing | Closed.

Definition lifecycle_closing (s : lifecycle) : bool :=
  match s with Open => false | Closing | Closed => true end.

(** What [pipe.py] takes from outside: libuv's pipe functions, the two
    status codes of [error.StatusCodes] it names, the class lookup
    [handle.HandleTypes(tag).cls] and [bytes.decode].
    A name query receives the buffer and the value of [*size], and
    returns the status, the buffer as libuv left it and the new
    [*size].  [ffi_new_fails n] is what [ffi.new('char[]', n)] raises
    when the platform cannot provide an array of [n] bytes
    ([OverflowError], [MemoryError]), and [None] when it provides
    one. *)
Class Lib : Type := {
  ffi_new_fails : Z -> option exn;
  uv_pipe_t : Type;
  SUCCESS : Z;
  ENOBUFS : Z;
  uv_pipe_pending_count : uv_pipe_t -> Z;
  uv_pipe_pending_type : uv_pipe_t -> Z;
  uv_pipe_getsockname : uv_pipe_t -> list byte -> Z -> Z * list byte * Z;
  uv_pipe_getpeername : uv_pipe_t -> list byte -> Z -> Z * list byte * Z;
  HandleTypes_cls : Z -> outcome string;
  decode : list byte -> outcome string
}.

(** One call of a name query, as the library sees it: the length of
    the [char[]] it was handed and the [*size] it was told. *)
Record probe : Type := mk_probe { probe_capacity : Z; probe_size : Z }.

(** A [char[]] of [n] bytes as [ffi.new] hands it out: all zero. *)
Definition zeros (n : Z) : list byte := repeat x00 (Z.to_nat n).

Definition is_nul (b : byte) : bool :=
  match b with x00 => true | _ => false end.

Fixpoint until_nul (bs : list byte) : list byte :=
  match bs with
  | [] => []
  | b :: rest => if is_nul b then [] else b :: until_nul rest
  end.

(** [ffi.string(c_buffer, maxlen)] on a [char[]]: the bytes before the
    first NUL, at most [maxlen] of them and never past the array. *)
Definition ffi_string (c_buffer : list byte) (maxlen : Z) : list byte :=
  until_nul (firstn (Z.to_nat maxlen) c_buffer).

Section WithLib.
Context `{Lib}.

(** A [Pipe] instance: the Handle state and [self.uv_pipe]. *)
Record Pipe : Type := mk_pipe { state : lifecycle; uv_pipe : uv_pipe_t }.

Definition closing (self : Pipe) : bool := lifecycle_closing (state self).

(** [ffi.new('char[]', n)]: [n] zero bytes, or the exception of an
    array that cannot be provided. *)
Definition ffi_new_chars (n : Z) : outcome (list byte) :=
  match ffi_new_fails n with
  | Some e => Raise e
  | None => Return (zeros n)
  end.

(** [Pipe.pending_count] *)
Definition pending_count (self : Pipe) : outcome Z :=
  if closing self then Return 0
  else Return (uv_pipe_pending_count (uv_pipe self)).

(** [Pipe.pending_type] *)
Definition pending_type (self : Pipe) : outcome string :=
  if closing self then Raise ClosedHandleError
  else HandleTypes_cls (uv_pipe_pending_type (uv_pipe self)).

(** A call of [lib.uv_pipe_getsockname] or [lib.uv_pipe_getpeername],
    noted in the store. *)
Definition lib_query (query : uv_pipe_t -> list byte -> Z -> Z * list byte * Z)
    (p : uv_pipe_t) (c_buffer : list byte) (c_size : Z)
  : M (list probe) (Z * list byte * Z) :=
  fun log =>
    (Return (query p c_buffer c_size),
     log ++ [mk_probe (Z.of_nat (length c_buffer)) c_size]).

(** The body that [Pipe.sockname] and [Pipe.peername] share; the
    two differ in the library function only. *)
Definition name_property (query : uv_pipe_t -> list byte -> Z -> Z * list byte * Z)
    (self : Pipe) : M (list probe) string :=
  if closing self then raise ClosedHandleError
  else
    let* c_buffer := (fun log => (ffi_new_chars 255, log)) in
    let c_size := 255 in
    let* r := lib_query query (uv_pipe self) c_buffer c_size in
    let '(code, c_buffer, c_size) := r in
    let* r :=
      (if code =? ENOBUFS
       then
         let* c_buffer := (fun log => (ffi_new_chars c_size, log)) in
         lib_query query (uv_pipe self) c_buffer c_size
       else ret (code, c_buffer, c_size)) in
    let '(code, c_buffer, c_size) := r in
    if negb (code =? SUCCESS) then raise (UVError code)
    else fun log => (decode (ffi_string c_buffer c_size), log).

(** [Pipe.sockname] *)
Definition sockname (self : Pipe) : M (list probe) string :=
  name_property uv_pipe_getsockname self.

(** [Pipe.peername] *)
Definition peername (self : Pipe) : M (list probe) string :=
  name_property uv_pipe_getpeername self.

(** What is asked for the pipe [p] to have the name [name]: the
    query answers with success or with [ENOBUFS] only; on success the
    buffer starts with the name and [*size] is its length; after
    [ENOBUFS] a buffer of the reported size is enough; and [ffi.new]
    provides the arrays asked of it, the first of 255 bytes and one of
    any size reported with [ENOBUFS]. *)
Record answers (query : uv_pipe_t -> list byte -> Z -> Z * list byte * Z)
    (p : uv_pipe_t) (name : list byte) : Prop := {
  answers_status : forall buf size,
    (query p buf size).1.1 = SUCCESS \/ (query p buf size).1.1 = ENOBUFS;
  answers_success : forall buf size,
    (query p buf size).1.1 = SUCCESS ->
    (query p buf size).2 = Z.of_nat (length name) /\
    firstn (length name) (query p buf size).1.2 = name;
  answers_retry : forall buf size,
    (query p buf size).1.1 = ENOBUFS ->
    (query p (zeros (query p buf size).2) (query p buf size).2).1.1
    = SUCCESS;
  answers_room :
    ffi_new_fails 255 = None /\
    forall buf size,
      (query p buf size).1.1 = ENOBUFS ->
      ffi_new_fails (query p buf size).2 = None
}.

(** The retry protocol of a name property [getter] over the library
    function [query]: the first array and the first call; the second
    array and the second call, made on [ENOBUFS] alone; what the last
    answer leads to; and the name returned when the pipe has one. *)
Definition retries_once
    (query : uv_pipe_t -> list byte -> Z -> Z * list byte * Z)
    (getter : Pipe -> M (list probe) string) : Prop :=
  forall (self : Pipe), closing self = false ->
  (forall e, ffi_new_fails 255 = Some e -> getter self [] = (Raise e, [])) /\
  (ffi_new_fails 255 = None ->
   forall code1 buf1 size1,
     query (uv_pipe self) (zeros 255) 255 = (code1, buf1, size1) ->
     let result := (getter self []).1 in
     let calls := (getter self []).2 in
     (code1 <> ENOBUFS ->
        calls = [mk_probe 255 255] /\
        (code1 = SUCCESS -> result = decode (ffi_string buf1 size1)) /\
        (code1 <> SUCCESS -> result = Raise (UVError code1)))
     /\
     (code1 = ENOBUFS ->
        (forall e, ffi_new_fails size1 = Some e ->
           calls = [mk_probe 255 255] /\ result = Raise e) /\
        (ffi_new_fails size1 = None ->
         forall code2 buf2 size2,
           query (uv_pipe self) (zeros size1) size1 = (code2, buf2, size2) ->
           calls = [mk_probe 255 255; mk_probe (Z.max 0 size1) size1] /\
           (code2 = SUCCESS -> result = decode (ffi_string buf2 size2)) /\
           (code2 <> SUCCESS -> result = Raise (UVError code2))))
     /\
     (forall name, answers query (uv_pipe self) name ->
        result = decode (until_nul name) /\
        (Forall (fun b => is_nul b = false) name -> result = decode name))).

End WithLib.

Arguments Pipe {_}.

End pipe.

(** ** [uv.handles.tcp] *)

Module tcp.

Definition request : Type := nat.
Definition callback : Type := nat.
Definition sockaddr : Type := (string * Z)%type.

(** What [TCP.connect] takes from outside: the address collaborator
    [dns.c_create_sockaddr] and libuv's [uv_tcp_connect]. *)
Class Env : Type := {
  uv_tcp_t : Type;
  c_create_sockaddr : string -> Z -> outcome sockaddr;
  uv_tcp_connect : request -> uv_tcp_t -> sockaddr -> Z * uv_tcp_t
}.

(** The name [c_require]: [tcp.py] neither defines nor imports it, so
    evaluating it raises [NameError], whatever the arguments would
    be. *)
Definition c_require (r : request) (sa : sockaddr) : outcome unit :=
  Raise (NameError "c_require").

Section WithEnv.
Context `{Env}.

(** A [TCP] instance: its slots [tcp] and [sockaddr], and the
    [requests] set and the Handle state it has from its base classes
    (the state as in [pipe.lifecycle]; no method of [tcp.py] reads
    it). *)
Record TCP : Type := mk_tcp {
  tcp_handle : uv_tcp_t;
  tcp_sockaddr : option sockaddr;
  requests : gset request;
  tcp_state : pipe.lifecycle
}.

(** The store: the [ConnectRequest] objects constructed so far, with
    the callback each was given, and the instance. *)
Record World : Type := mk_world {
  constructed : list (option callback);
  self : TCP
}.

(** [ConnectRequest(callback)]: a new object; its identity is its
    position among the objects constructed. *)
Definition ConnectRequest (cb : option callback) : M World request :=
  fun w => (Return (length (constructed w)),
            {| constructed := constructed w ++ [cb]; self := self w |}).

Definition set_sockaddr (sa : sockaddr) : M World unit :=
  modify (fun w =>
    {| constructed := constructed w;
       self := {| tcp_handle := tcp_handle (self w);
                  tcp_sockaddr := Some sa;
                  requests := requests (self w);
                  tcp_state := tcp_state (self w) |} |}).

Definition requests_add (r : request) : M World unit :=
  modify (fun w =>
    {| constructed := constructed w;
       self := {| tcp_handle := tcp_handle (self w);
                  tcp_sockaddr := tcp_sockaddr (self w);
                  requests := {[ r ]} ∪ requests (self w);
                  tcp_state := tcp_state (self w) |} |}).

Definition lift {X} (r : outcome X) : M World X := fun w => (r, w).

Definition lib_uv_tcp_connect (r : request) (sa : sockaddr) : M World Z :=
  fun w =>
    let (code, t') := uv_tcp_connect r (tcp_handle (self w)) sa in
    (Return code,
     {| constructed := constructed w;
        self := {| tcp_handle := t';
                   tcp_sockaddr := tcp_sockaddr (self w);
                   requests := requests (self w);
                   tcp_state := tcp_state (self w) |} |}).

(** [TCP.connect] *)
Definition connect (ip : string) (port : Z) (cb : option callback)
  : M World request :=
  let* request := ConnectRequest cb in
  let* sa := lift (c_create_sockaddr ip port) in
  set_sockaddr sa ;;;
  lift (c_require request sa) ;;;
  requests_add request ;;;
  let* code := lib_uv_tcp_connect request sa in
  if code <? 0 then raise (UVError code) else ret request.

End WithEnv.

Arguments TCP {_}.
Arguments World {_}.

End tcp.

(** ** Concrete libraries and stores

    Small instances of the interfaces above, on which the definitions
    can be run. *)

Module samples.

(** A loop library whose C loop is the number of handles still
    active: it is alive while some are, and refuses to close then
    ([UV_EBUSY] is -16). *)
#[export] Instance counting_lib : loop.Lib := {|
  loop.uv_loop_t := Z;
  loop.uv_loop_alive := fun n => if 0 <? n then 1 else 0;
  loop.uv_now := fun _ => 1000;
  loop.uv_backend_fd := fun _ => 3;
  loop.uv_update_time := fun n => n;
  loop.uv_backend_timeout := fun _ => 0;
  loop.uv_run := fun n _ => (if 0 <? n then 1 else 0, n);
  loop.uv_stop := fun n => n;
  loop.uv_loop_close := fun n => (if 0 <? n then -16 else 0, n)
|}.

Definition a_loop {A} (a : A) (hook : loop.Hook) (is_closed : bool) : loop.Loop A :=
  {| loop.self_id := 1%nat;
     loop.uv_loop := if is_closed then None else Some 0;
     loop.allocator := a;
     loop.excepthook := hook;
     loop.exc_type := None;
     loop.exc_value := None;
     loop.exc_traceback := None;
     loop.handles := ∅;
     loop.requests := ∅;
     loop.closed := is_closed |}.

Definition a_world {A} (a : A) (hook : loop.Hook) (is_closed : bool) : loop.World A :=
  {| loop.Loop_default := None;
     loop.Loop_loops := if is_closed then ∅ else {[ 1%nat ]};
     loop.thread_locals_loop := Some (if is_closed then None else Some 1%nat);
     loop.stdout_ok := true;
     loop.stderr_ok := true;
     loop.events := [];
     loop.self := a_loop a hook is_closed |}.

Definition default_allocator : DefaultAllocator :=
  DefaultAllocator_init 4096 None.

(** An open loop as [Loop()] leaves it, and the same loop closed. *)
Definition open_world : loop.World DefaultAllocator :=
  a_world default_allocator loop.default_hook false.

Definition closed_world : loop.World DefaultAllocator :=
  a_world default_allocator loop.default_hook true.

(** An open loop whose excepthook is an application function that
    raises. *)
Definition bad_hook_world : loop.World DefaultAllocator :=
  a_world default_allocator (loop.application_hook (Raise (AppError 3))) false.

(** An open loop with an application allocator that raises and an
    application excepthook that returns. *)
Definition raising_world : loop.World RaisingAllocator :=
  a_world (mk_raising 7) (loop.application_hook (Return tt)) false.

Definition a_traceback : loop.exc_info :=
  {| loop.info_type := Some "ValueError"%string;
     loop.info_value := Some ValueError;
     loop.info_traceback := Some 0%nat |}.

Definition a_buf : uv_buf_t := {| buf_base := 77; buf_len := 5 |}.

(** Memory with the text "hello" in the default allocator's buffer. *)
Definition hello : list byte := [x68; x65; x6c; x6c; x6f].

Definition hello_memory : memory :=
  fun a => nth (Z.to_nat (a - 4096)) hello x00.

(** A pipe library in the manner of libuv: the C pipe is the name it
    is bound to; a query copies the name and a terminating NUL when
    [*size] exceeds the name's length, and otherwise answers
    [UV_ENOBUFS] (-105) with the size it needs. *)
Definition named_query (name buf : list byte) (size : Z) : Z * list byte * Z :=
  let n := Z.of_nat (length name) in
  if size <=? n then (-105, buf, n + 1)
  else (0, name ++ x00 :: skipn (S (length name)) buf, n).

Definition ascii_decode (bs : list byte) : outcome string :=
  if forallb (fun b => (Byte.to_N b <? 128)%N) bs
  then Return (String.string_of_list_byte bs)
  else Raise UnicodeDecodeError.

#[export] Instance named_lib : pipe.Lib := {|
  pipe.ffi_new_fails := fun n => if 2 ^ 63 <=? n then Some OverflowError else None;
  pipe.uv_pipe_t := list byte;
  pipe.SUCCESS := 0;
  pipe.ENOBUFS := -105;
  pipe.uv_pipe_pending_count := fun _ => 2;
  pipe.uv_pipe_pending_type := fun _ => 7;
  pipe.uv_pipe_getsockname := named_query;
  pipe.uv_pipe_getpeername := named_query;
  pipe.HandleTypes_cls := fun tag =>
    if tag =? 7 then Return "Pipe"%string
    else if tag =? 12 then Return "TCP"%string
    else Raise ValueError;
  pipe.decode := ascii_decode
|}.

(** A name of 300 bytes, longer than the first buffer. *)
Definition long_name : list byte := repeat x61 300.

Definition long_pipe : pipe.Pipe :=
  {| pipe.state := pipe.Open; pipe.uv_pipe := long_name |}.

Definition closing_pipe : pipe.Pipe :=
  {| pipe.state := pipe.Closing; pipe.uv_pipe := long_name |}.

(** A TCP environment that builds every address and in which libuv
    answers every connect with [code]. *)
Definition answering_env (code : Z) : tcp.Env := {|
  tcp.uv_tcp_t := unit;
  tcp.c_create_sockaddr := fun ip port => Return (ip, port);
  tcp.uv_tcp_connect := fun _ t _ => (code, t)
|}.

(** A handle on which nothing has been done yet, and one on which
    closing has begun. *)
Definition fresh_tcp (E : tcp.Env) (t : @tcp.uv_tcp_t E) : @tcp.World E :=
  {| tcp.constructed := [];
     tcp.self := {| tcp.tcp_handle := t;
                    tcp.tcp_sockaddr := None;
                    tcp.requests := ∅;
                    tcp.tcp_state := pipe.Open |} |}.


End samples.

(** ** Reads in sequence and loop invariants *)

Module reads.

(** [allocate] called once per element of [args], with no [finalize]
    in between: the buffers supplied, oldest first, and the allocator
    afterwards.  [uv_buf] is the struct libuv passes in each time. *)
Fixpoint allocate_each (args : list (handle * Z)) (self : DefaultAllocator)
    (uv_buf : uv_buf_t) : list uv_buf_t * DefaultAllocator :=
  match args with
  | [] => ([], self)
  | (h, suggested_size) :: rest =>
      let '(_, self', supplied) := default_allocate self h suggested_size uv_buf in
      let (later, last) := allocate_each rest self' uv_buf in
      (supplied :: later, last)
  end.

End reads.

Module loop_inv.

Import loop.

Section WithLib.
Context `{Lib} {A : Type}.

(** A loop as [Loop()] makes it and its methods keep it: the thread
    has a current-loop attribute, and while the loop is open it is in
    [Loop._loops] and has its C loop. *)
Definition consistent (w : World A) : Prop :=
  is_Some (thread_locals_loop w) /\
  (closed (self w) = false ->
   self_id (self w) ∈ Loop_loops w /\ is_Some (uv_loop (self w))).

(** What the methods other than [close] leave as it is. *)
Record settled (w w' : World A) : Prop := {
  settled_current : is_Some (thread_locals_loop w) -> is_Some (thread_locals_loop w');
  settled_loops : Loop_loops w' = Loop_loops w;
  settled_uv : is_Some (uv_loop (self w)) -> is_Some (uv_loop (self w'));
  settled_closed : closed (self w') = closed (self w);
  settled_id : self_id (self w') = self_id (self w);
  settled_default : Loop_default w' = Loop_default w
}.

Definition Settled {X} (m : M (World A) X) : Prop :=
  forall w, settled w (m w).2.


(** The close requests [close_all_handles] issues, newest first. *)
Definition close_requests (cb : option callback) (w : World A) : list event :=
  rev (map (fun h => HandleClose h cb) (elements (handles (self w)))).

End WithLib.

End loop_inv.

(** ** [uv.handles.pipe]: opening and binding *)

Module pipe_setup.

Import pipe.

(** What the remaining methods of [Pipe] take from outside: three more
    libuv functions, each returning the C pipe as it leaves it, and
    [str.encode]. *)
Class Lib `{pipe.Lib} : Type := {
  cross_uv_pipe_open : uv_pipe_t -> Z -> Z * uv_pipe_t;
  uv_pipe_bind : uv_pipe_t -> list byte -> Z * uv_pipe_t;
  uv_pipe_pending_instances : uv_pipe_t -> Z -> uv_pipe_t;
  encode : string -> outcome (list byte)
}.

Section WithLib.
Context `{Lib}.

Definition set_uv_pipe (p : uv_pipe_t) (self : Pipe) : Pipe :=
  {| state := state self; uv_pipe := p |}.

(** A libuv call on [self.uv_pipe] that returns a status. *)
Definition lib_status (f : uv_pipe_t -> Z * uv_pipe_t) : M Pipe Z :=
  fun self => let (code, p) := f (uv_pipe self) in (Return code, set_uv_pipe p self).

(** [Pipe.open] *)
Definition Pipe_open (fd : Z) : M Pipe unit :=
  let* c := gets closing in
  if c then raise ClosedHandleError
  else
    let* code := lib_status (fun p => cross_uv_pipe_open p fd) in
    if negb (code =? SUCCESS) then raise (UVError code) else ret tt.

(** [Pipe.bind] *)
Definition Pipe_bind (path : string) : M Pipe unit :=
  let* c := gets closing in
  if c then raise ClosedHandleError
  else
    let* encoded := (fun self => (encode path, self)) in
    let* code := lib_status (fun p => uv_pipe_bind p encoded) in
    if negb (code =? SUCCESS) then raise (UVError code) else ret tt.

(** [Pipe.pending_instances] *)
Definition pending_instances (amount : Z) : M Pipe unit :=
  modify (fun self =>
            set_uv_pipe (uv_pipe_pending_instances (uv_pipe self) amount) self).

(** [Pipe.pending_accept]; [accept] is [Stream.accept], which the
    method calls with the class [pending_type] gave. *)
Definition pending_accept {X} (accept : string -> M Pipe X) : M Pipe X :=
  let* cls := (fun self => (pending_type self, self)) in
  accept cls.

End WithLib.

End pipe_setup.

(** ** [uv.handles.tcp]: binding *)

Module tcp_bind.

Import tcp.

Class Lib `{tcp.Env} : Type := {
  uv_tcp_bind : uv_tcp_t -> sockaddr -> Z -> Z * uv_tcp_t
}.

Section WithLib.
Context `{Lib}.

Definition lib_uv_tcp_bind (sa : sockaddr) (flags : Z) : M World Z :=
  fun w =>
    let (code, t') := uv_tcp_bind (tcp_handle (self w)) sa flags in
    (Return code,
     {| constructed := constructed w;
        self := {| tcp_handle := t';
                   tcp_sockaddr := tcp_sockaddr (self w);
                   requests := requests (self w);
                   tcp_state := tcp_state (self w) |} |}).

(** [TCP.bind] *)
Definition TCP_bind (ip : string) (port : Z) (flags : Z) : M World unit :=
  let* sa := lift (c_create_sockaddr ip port) in
  set_sockaddr sa ;;;
  let* code := lib_uv_tcp_bind sa flags in
  if code <? 0 then raise (UVError code) else ret tt.

End WithLib.

End tcp_bind.

(** ** [uv.loop]: constructing loops, the default and the current loop *)

Module registry.

Import loop.

(** What [Loop.__init__] takes from outside: [uv_default_loop()]
    gives the default C loop or NULL, [uv_loop_init] a status and the
    C loop it initialised, and [ffi_new_fails n] is what
    [ffi.new('char[]', n)] raises when the platform cannot provide the
    array ([None] when it provides one). *)
Class Lib `{loop.Lib} : Type := {
  uv_default_loop : option uv_loop_t;
  uv_loop_init : Z * uv_loop_t;
  ffi_new_fails : Z -> option exn
}.

(** Python's truth value of an application allocator, which
    [allocator or DefaultAllocator(buffer_size)] tests. *)
Class Truth (A : Type) : Type := truth : A -> bool.

(** What a constructor or class method of [Loop] can raise. *)
Inductive raised : Type :=
| AssertionError
| RuntimeError (message : string)
| Other (e : exn).

(** How a call ends: it returns, it raises, or it never returns
    because it waits for [Loop._global_lock], a plain
    [threading.Lock], while its own thread holds it. *)
Inductive result (X : Type) : Type :=
| Ok (x : X)
| Err (r : raised)
| Hangs.
Arguments Ok {X} x.
Arguments Err {X} r.
Arguments Hangs {X}.

Definition returns {X} (r : result X) : bool :=
  match r with Hangs => false | _ => true end.

Section WithLib.
Context `{Lib} {A : Type} `{Truth A}.

(** The interpreter as [Loop] sees it: the [Loop] objects by identity,
    the identity the next object gets, the address the next [ffi.new]
    returns, the class attributes [_default] and [_loops], the calling
    thread's [_thread_locals.loop], the output streams and the events.
    A loop's allocator is the application's or a [DefaultAllocator]. *)
Record Process : Type := mk_process {
  objects : gmap loop_id (Loop (A + DefaultAllocator));
  next_id : loop_id;
  next_addr : addr;
  class_default : option loop_id;
  class_loops : gset loop_id;
  thread_loop : option (option loop_id);
  out_ok : bool;
  err_ok : bool;
  log : list event
}.

(** The store of a method call on the object [l]. *)
Definition world_of (P : Process) (l : Loop (A + DefaultAllocator))
  : World (A + DefaultAllocator) :=
  {| Loop_default := class_default P; Loop_loops := class_loops P;
     thread_locals_loop := thread_loop P;
     stdout_ok := out_ok P; stderr_ok := err_ok P;
     events := log P; self := l |}.

(** The interpreter after a method call on the object [id] that ended
    in the store [w]. *)
Definition absorb (id : loop_id) (w : World (A + DefaultAllocator)) (P : Process)
  : Process :=
  {| objects := <[ id := self w ]> (objects P);
     next_id := next_id P; next_addr := next_addr P;
     class_default := Loop_default w; class_loops := Loop_loops w;
     thread_loop := thread_locals_loop w;
     out_ok := stdout_ok w; err_ok := stderr_ok w;
     log := events w |}.

(** A method call on the object [id]; there is none on an identity
    that names no object. *)
Definition on {X} (id : loop_id) (m : M (World (A + DefaultAllocator)) X)
    (P : Process) : option (outcome X * Process) :=
  match objects P !! id with
  | None => None
  | Some l => let (r, w') := m (world_of P l) in Some (r, absorb id w' P)
  end.

(** An object was created and dropped: only its identity is used up. *)
Definition dropped (P : Process) : Process :=
  {| objects := objects P; next_id := S (next_id P); next_addr := next_addr P;
     class_default := class_default P; class_loops := class_loops P;
     thread_loop := thread_loop P;
     out_ok := out_ok P; err_ok := err_ok P; log := log P |}.

Definition set_class_default (d : option loop_id) (P : Process) : Process :=
  {| objects := objects P; next_id := next_id P; next_addr := next_addr P;
     class_default := d; class_loops := class_loops P;
     thread_loop := thread_loop P;
     out_ok := out_ok P; err_ok := err_ok P; log := log P |}.

(** The first half of [Loop.__init__]: obtaining the C loop. *)
Definition init_uv_loop (default : bool) (P : Process) : result uv_loop_t :=
  if default then
    match class_default P with
    | Some _ => Err AssertionError
    | None =>
        match uv_default_loop with
        | None => Err (RuntimeError "error initializing default loop")
        | Some u => Ok u
        end
    end
  else
    let (code, u) := uv_loop_init in
    if code <? 0 then Err (Other (UVError code)) else Ok u.

(** [allocator or DefaultAllocator(buffer_size)]: the application's
    allocator when there is one and it is true, else a new
    [DefaultAllocator], whose [ffi.new] may raise. *)
Definition init_allocator (allocator : option A) (buffer_size : Z) (P : Process)
  : result (A + DefaultAllocator) :=
  let default :=
    match ffi_new_fails buffer_size with
    | Some e => Err (Other e)
    | None => Ok (inr (DefaultAllocator_init (next_addr P) (Some buffer_size)))
    end in
  match allocator with
  | Some a => if truth a then Ok (inl a) else default
  | None => default
  end.

(** [Loop.__init__] on a new object.  [locked] tells whether the
    caller holds [Loop._global_lock]: the constructor takes that lock
    to register the loop, so under a caller that holds it the call
    stops there for good.  A constructor that raises or hangs leaves no
    object behind that anyone can reach. *)
Definition Loop_init (locked : bool) (allocator : option A) (default : bool)
    (buffer_size : Z) (P : Process) : result loop_id * Process :=
  match init_uv_loop default P with
  | Err r => (Err r, dropped P)
  | Hangs => (Hangs, dropped P)
  | Ok u =>
      match init_allocator allocator buffer_size P with
      | Err r => (Err r, dropped P)
      | Hangs => (Hangs, dropped P)
      | Ok a =>
          if locked then (Hangs, dropped P)
          else
            let id := next_id P in
            let l := {| self_id := id; uv_loop := Some u; allocator := a;
                        excepthook := default_hook;
                        exc_type := None; exc_value := None;
                        exc_traceback := None;
                        handles := ∅; requests := ∅; closed := false |} in
            (Ok id,
             {| objects := <[ id := l ]> (objects P);
                next_id := S id;
                next_addr := match a with
                             | inl _ => next_addr P
                             | inr _ => next_addr P + buffer_size
                             end;
                class_default := class_default P;
                class_loops := {[ id ]} ∪ class_loops P;
                thread_loop := Some (Some id);
                out_ok := out_ok P; err_ok := err_ok P; log := log P |})
      end
  end.

(** [Loop(allocator, default, buffer_size)], called with the lock
    free. *)
Definition Loop_new (allocator : option A) (default : bool) (buffer_size : Z)
    (P : Process) : result loop_id * Process :=
  Loop_init false allocator default buffer_size P.

(** [Loop.get_default(instantiate, **arguments)].  The whole body runs
    under [with cls._global_lock], the constructor included. *)
Definition get_default (instantiate : bool) (allocator : option A)
    (buffer_size : Z) (P : Process) : result (option loop_id) * Process :=
  match class_default P with
  | Some d => (Ok (Some d), P)
  | None =>
      if instantiate then
        match Loop_init true allocator true buffer_size P with
        | (Ok id, P') => (Ok (Some id), set_class_default (Some id) P')
        | (Err r, P') => (Err r, P')
        | (Hangs, P') => (Hangs, P')
        end
      else (Ok None, P)
  end.

(** [Loop.get_current(instantiate, **arguments)] *)
Definition get_current (instantiate : bool) (allocator : option A)
    (default : bool) (buffer_size : Z) (P : Process)
  : result (option loop_id) * Process :=
  match thread_loop P with
  | Some (Some l) => (Ok (Some l), P)
  | _ =>
      if instantiate then
        match Loop_new allocator default buffer_size P with
        | (Ok id, P') => (Ok (Some id), P')
        | (Err r, P') => (Err r, P')
        | (Hangs, P') => (Hangs, P')
        end
      else (Ok None, P)
  end.

(** [Loop.get_loops()] *)
Definition get_loops (P : Process) : gset loop_id := class_loops P.

(** What a program does with loops, one step at a time. *)
Inductive action : Type :=
| New (allocator : option A) (default : bool) (buffer_size : Z)
| GetDefault (instantiate : bool) (allocator : option A) (buffer_size : Z)
| GetCurrent (instantiate : bool) (allocator : option A) (default : bool)
    (buffer_size : Z)
| Method (id : loop_id) (o : op).

(** One step: whether it came back (returned or raised), and the
    interpreter after it. *)
Definition act (a : action) (P : Process) : bool * Process :=
  match a with
  | New allocator default buffer_size =>
      let (r, P') := Loop_new allocator default buffer_size P in (returns r, P')
  | GetDefault i allocator buffer_size =>
      let (r, P') := get_default i allocator buffer_size P in (returns r, P')
  | GetCurrent i allocator default buffer_size =>
      let (r, P') := get_current i allocator default buffer_size P in
      (returns r, P')
  | Method id o => match on id (call o) P with
                   | Some (_, P') => (true, P')
                   | None => (true, P)
                   end
  end.

(** A program: its steps in turn, up to the first that does not come
    back. *)
Fixpoint acts (steps : list action) (P : Process) : Process :=
  match steps with
  | [] => P
  | a :: rest =>
      match act a P with
      | (true, P') => acts rest P'
      | (false, P') => P'
      end
  end.

(** The interpreter before the first loop is made. *)
Definition startup (out err : bool) : Process :=
  {| objects := ∅; next_id := 0%nat; next_addr := 4096;
     class_default := None; class_loops := ∅; thread_loop := None;
     out_ok := out; err_ok := err; log := [] |}.

(** The registry holds the open loops and no others; every object is
    stored under its own identity, below the next one; an open loop has
    its C loop; the default loop is an object; and once there is an
    object the thread has a current-loop attribute. *)
Record registry_ok (P : Process) : Prop := {
  ok_objects : forall id l, objects P !! id = Some l ->
    self_id l = id /\ (id < next_id P)%nat /\
    (closed l = false -> is_Some (uv_loop l));
  ok_loops : forall id, id ∈ class_loops P <->
    exists l, objects P !! id = Some l /\ closed l = false;
  ok_default : forall d, class_default P = Some d -> is_Some (objects P !! d);
  ok_thread : objects P = ∅ \/ is_Some (thread_loop P)
}.

End WithLib.

Arguments Process {_} A.

End registry.

(** ** More concrete libraries and stores *)

Module more_samples.

Import samples.

(** An open loop with two handles still active, which libuv will not
    close. *)
Definition busy_world : loop.World DefaultAllocator :=
  {| loop.Loop_default := None;
     loop.Loop_loops := {[ 1%nat ]};
     loop.thread_locals_loop := Some (Some 1%nat);
     loop.stdout_ok := true;
     loop.stderr_ok := true;
     loop.events := [];
     loop.self :=
       {| loop.self_id := 1%nat;
          loop.uv_loop := Some 2;
          loop.allocator := default_allocator;
          loop.excepthook := loop.default_hook;
          loop.exc_type := None;
          loop.exc_value := None;
          loop.exc_traceback := None;
          loop.handles := {[ 5%nat; 6%nat ]};
          loop.requests := ∅;
          loop.closed := false |} |}.

(** The open loop of [samples] with [sys.stderr] closed. *)
Definition mute_world : loop.World DefaultAllocator :=
  {| loop.Loop_default := None;
     loop.Loop_loops := {[ 1%nat ]};
     loop.thread_locals_loop := Some (Some 1%nat);
     loop.stdout_ok := true;
     loop.stderr_ok := false;
     loop.events := [];
     loop.self := loop.self open_world |}.

(** The rest of the pipe library: a descriptor below zero is refused
    with [UV_EBADF] (-9), binding gives the pipe its name. *)
#[export] Instance named_setup : pipe_setup.Lib := {|
  pipe_setup.cross_uv_pipe_open := fun p fd => (if fd <? 0 then -9 else 0, p);
  pipe_setup.uv_pipe_bind := fun _ name => (0, name);
  pipe_setup.uv_pipe_pending_instances := fun p _ => p;
  pipe_setup.encode := fun path => Return (String.list_byte_of_string path)
|}.

(** A pipe library that always wants a buffer larger than [ffi.new]
    can provide. *)
Definition insatiable_lib : pipe.Lib := {|
  pipe.ffi_new_fails := fun n => if 2 ^ 63 <=? n then Some OverflowError else None;
  pipe.uv_pipe_t := unit;
  pipe.SUCCESS := 0;
  pipe.ENOBUFS := -105;
  pipe.uv_pipe_pending_count := fun _ => 0;
  pipe.uv_pipe_pending_type := fun _ => 7;
  pipe.uv_pipe_getsockname := fun _ buf _ => (-105, buf, 2 ^ 63);
  pipe.uv_pipe_getpeername := fun _ buf _ => (-105, buf, 2 ^ 63);
  pipe.HandleTypes_cls := fun _ => Raise ValueError;
  pipe.decode := ascii_decode
|}.

(** A pipe bound in the abstract namespace: its name starts with a NUL
    byte. *)
Definition abstract_name : list byte := [x00; x75; x76].

Definition abstract_pipe : pipe.Pipe :=
  {| pipe.state := pipe.Open; pipe.uv_pipe := abstract_name |}.

(** A TCP environment whose address collaborator refuses every
    address. *)
Definition refusing_env : tcp.Env := {|
  tcp.uv_tcp_t := unit;
  tcp.c_create_sockaddr := fun _ _ => Raise ValueError;
  tcp.uv_tcp_connect := fun _ t _ => (0, t)
|}.

(** libuv answering every bind with [code]. *)
Definition binding (code : Z) : @tcp_bind.Lib (answering_env 0) :=
  {| tcp_bind.uv_tcp_bind := fun t _ _ => (code, t) |}.

(** libuv initialising every loop with no active handle. *)
#[export] Instance counting_init : registry.Lib := {|
  registry.uv_default_loop := Some 0;
  registry.uv_loop_init := (0, 0);
  registry.ffi_new_fails :=
    fun n => if 2 ^ 63 <=? n then Some OverflowError else None
|}.

#[export] Instance unit_truth : registry.Truth unit := fun _ => true.

(** The interpreter at startup and after [Loop()]. *)
Definition at_startup : registry.Process unit := registry.startup true true.

Definition one_loop : registry.Process unit :=
  (registry.Loop_new None false 65536 at_startup).2.

End more_samples.

(** * Properties *)

Import samples.

(** ** The execution monad *)

Lemma bind_return {S A B} (m : M S A) (k : A -> M S B) s a s' :
  m s = (Return a, s') -> bind m k s = k a s'.
Proof. intros Hm. unfold bind. now rewrite Hm. Qed.

Lemma bind_raise {S A B} (m : M S A) (k : A -> M S B) s e s' :
  m s = (Raise e, s') -> bind m k s = (Raise e, s').
Proof. intros Hm. unfold bind. now rewrite Hm. Qed.

(** ** The default allocator *)

Section DefaultAllocatorFacts.

Lemma ffi_buffer_length mem c_base n :
  length (ffi_buffer mem c_base n) = Z.to_nat n.
Proof. unfold ffi_buffer. now rewrite length_map, length_seq. Qed.

Lemma ffi_buffer_nth mem c_base n i :
  (i < Z.to_nat n)%nat ->
  nth_error (ffi_buffer mem c_base n) i = Some (mem (c_base + Z.of_nat i)).
Proof.
  intros Hi. unfold ffi_buffer.
  rewrite nth_error_map, nth_error_seq.
  destruct (Nat.ltb_spec i (Z.to_nat n)) as [_ | Hge]; [reflexivity | lia].
Qed.

(** Reading [n] bytes at the base of a [char[]] object gives its first
    [n] bytes. *)
Lemma ffi_buffer_stores mem c_base content n :
  stores mem c_base content ->
  (Z.to_nat n <= length content)%nat ->
  ffi_buffer mem c_base n = firstn (Z.to_nat n) content.
Proof.
  intros Hst Hn. apply nth_error_ext. intros i.
  destruct (Nat.lt_ge_cases i (Z.to_nat n)) as [Hi | Hi].
  - rewrite ffi_buffer_nth by assumption.
    rewrite nth_error_firstn.
    destruct (Nat.ltb_spec i (Z.to_nat n)) as [_ | ?]; [| lia].
    destruct (nth_error content i) as [b |] eqn:Hb.
    + f_equal. now apply Hst.
    + apply nth_error_None in Hb. lia.
  - transitivity (@None byte).
    + apply nth_error_None. rewrite ffi_buffer_length. exact Hi.
    + symmetry. apply nth_error_None. rewrite length_firstn. lia.
Qed.

(** C4.  [DefaultAllocator.allocate] returns without raising and leaves
    the in-use flag set; when the flag was already set it supplies the
    null base with length zero, and when the buffer was free it supplies
    the allocator's own buffer with its full size. *)
Theorem allocate_in_use_gives_empty_buffer
    (self : DefaultAllocator) (h : handle) (suggested_size : Z) (uv_buf : uv_buf_t) :
  (default_allocate self h suggested_size uv_buf).1.1 = Return tt /\
  buffer_in_use (default_allocate self h suggested_size uv_buf).1.2 = true /\
  (buffer_in_use self = true ->
     (default_allocate self h suggested_size uv_buf).2
     = {| buf_base := NULL; buf_len := 0 |}) /\
  (buffer_in_use self = false ->
     (default_allocate self h suggested_size uv_buf).2
     = {| buf_base := c_buffer self; buf_len := buffer_size self |}).
Proof.
  unfold default_allocate, uv_buffer_set. cbn.
  repeat split; intros Hflag; now rewrite Hflag.
Qed.

(** The buffer a second [allocate] supplies while the first one is
    still out. *)
Lemma allocate_in_use_gives_empty_buffer_witness :
  (default_allocate (set_in_use true default_allocator) 1%nat 65536 a_buf).2
  = {| buf_base := NULL; buf_len := 0 |}.
Proof.
  apply (allocate_in_use_gives_empty_buffer
           (set_in_use true default_allocator) 1%nat 65536 a_buf).
  reflexivity.
Defined.

(** C5.  [DefaultAllocator.finalize] clears the in-use flag and
    returns; for a positive [length] the result is the [length] bytes
    found at the buffer's base (the first [length] bytes of the object
    stored there), and for a zero or negative [length] it is empty. *)
Theorem finalize_releases_and_returns_length_bytes
    (self : DefaultAllocator) (h : handle) (n : Z) (uv_buf : uv_buf_t) (mem : memory) :
  buffer_in_use (default_finalize self h n uv_buf mem).2 = false /\
  (0 < n ->
     exists data,
       (default_finalize self h n uv_buf mem).1 = Return data /\
       Z.of_nat (length data) = n /\
       (forall i, (i < Z.to_nat n)%nat ->
          nth_error data i = Some (mem (buf_base uv_buf + Z.of_nat i))) /\
       (forall content, stores mem (buf_base uv_buf) content ->
          n <= Z.of_nat (length content) ->
          data = firstn (Z.to_nat n) content)) /\
  (n <= 0 -> (default_finalize self h n uv_buf mem).1 = Return []).
Proof.
  unfold default_finalize, uv_buffer_get_base. cbn. split; [reflexivity |]. split.
  - intros Hn. exists (ffi_buffer mem (buf_base uv_buf) n).
    destruct (Z.ltb_spec 0 n) as [_ | ?]; [| lia].
    split; [reflexivity |]. split; [rewrite ffi_buffer_length; lia |]. split.
    + intros i Hi. now apply ffi_buffer_nth.
    + intros content Hst Hlen. apply ffi_buffer_stores; [assumption | lia].
  - intros Hn. destruct (Z.ltb_spec 0 n) as [? | _]; [lia | reflexivity].
Qed.

(** [finalize] after a read of five bytes into the buffer. *)
Lemma finalize_releases_and_returns_length_bytes_witness :
  exists data,
    (default_finalize (set_in_use true default_allocator) 1%nat 5
       {| buf_base := 4096; buf_len := 65536 |} hello_memory).1 = Return data /\
    Z.of_nat (length data) = 5.
Proof.
  destruct (finalize_releases_and_returns_length_bytes
              (set_in_use true default_allocator) 1%nat 5
              {| buf_base := 4096; buf_len := 65536 |} hello_memory)
    as (_ & Hpos & _).
  destruct (Hpos ltac:(lia)) as (data & Hret & Hlen & _).
  exists data. split; assumption.
Defined.

Example finalize_hello :
  default_finalize (set_in_use true default_allocator) 1%nat 5
    {| buf_base := 4096; buf_len := 65536 |} hello_memory
  = (Return hello, default_allocator).
Proof. reflexivity. Qed.

Example finalize_eof :
  default_finalize (set_in_use true default_allocator) 1%nat (-4095)
    {| buf_base := NULL; buf_len := 0 |} hello_memory
  = (Return [], default_allocator).
Proof. reflexivity. Qed.

End DefaultAllocatorFacts.

(** ** The event loop *)

Section LoopFacts.

Import loop.

Context `{Lib} {A : Type} `{Allocator A}.

#[local] Abbreviation World := (loop.World A).
#[local] Abbreviation Steady := (loop.Steady (A:=A)).
#[local] Abbreviation steady := (loop.steady (A:=A)).

Lemma steady_refl (w : World) : steady w w.
Proof. split; auto. now exists []. Qed.

Lemma steady_trans (w1 w2 w3 : World) : steady w1 w2 -> steady w2 w3 -> steady w1 w3.
Proof.
  intros [c1 (t1 & v1 & b1) i1 h1 [n1 e1]] [c2 (t2 & v2 & b2) i2 h2 [n2 e2]].
  split; [auto | | congruence | congruence |].
  - repeat split; congruence.
  - exists (n2 ++ n1). rewrite e2, e1. apply app_assoc.
Qed.

Lemma Steady_ret {X} (x : X) : Steady (ret x : M World X).
Proof. intros w. apply steady_refl. Qed.

Lemma Steady_raise {X} e : Steady (@raise World X e).
Proof. intros w. apply steady_refl. Qed.

Lemma Steady_gets {X} (f : World -> X) : Steady (gets f).
Proof. intros w. apply steady_refl. Qed.

Lemma Steady_get : Steady (@get World).
Proof. intros w. apply steady_refl. Qed.

Lemma Steady_bind {X Y} (m : M World X) (k : X -> M World Y) :
  Steady m -> (forall x, Steady (k x)) -> Steady (bind m k).
Proof.
  intros Hm Hk w. unfold bind. specialize (Hm w).
  destruct (m w) as [[x | e] w1]; cbn in *; [| exact Hm].
  eapply steady_trans; [exact Hm | apply Hk].
Qed.

Lemma Steady_try_except {X} (body : M World X) handler :
  Steady body -> (forall e, Steady (handler e)) -> Steady (try_except body handler).
Proof.
  intros Hb Hh w. unfold try_except. specialize (Hb w).
  destruct (body w) as [[x | e] w1]; cbn in *; [exact Hb |].
  eapply steady_trans; [exact Hb | apply Hh].
Qed.

Lemma Steady_try_finally {X} (body : M World X) fin :
  Steady body -> Steady fin -> Steady (try_finally body fin).
Proof.
  intros Hb Hf w. unfold try_finally. specialize (Hb w).
  destruct (body w) as [r w1]. specialize (Hf w1).
  destruct (fin w1) as [[u | e] w2]; cbn in *; eapply steady_trans; eauto.
Qed.

Lemma Steady_for_each {X} (xs : list X) body :
  (forall x, Steady (body x)) -> Steady (for_each xs body).
Proof.
  intros Hb. induction xs as [| x rest IH]; cbn.
  - apply Steady_ret.
  - apply Steady_bind; auto.
Qed.

Lemma Steady_modify (f : World -> World) :
  (forall w, steady w (f w)) -> Steady (modify f).
Proof. intros Hf w. apply Hf. Qed.

Lemma steady_emit e (w : World) : steady w (emit e w).
Proof. split; auto. now exists [e]. Qed.

Lemma steady_set_thread_locals_loop v (w : World) : steady w (set_thread_locals_loop v w).
Proof. split; auto. now exists []. Qed.

Lemma steady_set_loops ls (w : World) : steady w (set_loops ls w).
Proof. split; auto. now exists []. Qed.

Lemma steady_set_uv_loop u (w : World) : steady w (with_self (set_uv_loop u) w).
Proof. split; auto. now exists []. Qed.

Lemma steady_set_closed (w : World) : steady w (with_self (set_closed true) w).
Proof. split; auto. now exists []. Qed.

Lemma Steady_lib_call {X} (f : uv_loop_t -> X * uv_loop_t) : Steady (lib_call f).
Proof.
  intros w. unfold lib_call. destruct (uv_loop (self w)) as [u |]; cbn.
  - destruct (f u) as [x u']. apply steady_set_uv_loop.
  - apply steady_refl.
Qed.

Lemma Steady_print_stdout line : Steady (print_stdout line).
Proof.
  intros w. unfold print_stdout.
  destruct (stdout_ok w); [apply steady_emit | apply steady_refl].
Qed.

Lemma Steady_print_stderr line : Steady (print_stderr line).
Proof.
  intros w. unfold print_stderr.
  destruct (stderr_ok w); [apply steady_emit | apply steady_refl].
Qed.

Lemma Steady_traceback_print_exception i : Steady (traceback_print_exception i).
Proof.
  intros w. unfold traceback_print_exception.
  destruct (stderr_ok w); [apply steady_emit | apply steady_refl].
Qed.

Lemma Steady_traceback_print_exc e : Steady (traceback_print_exc e).
Proof.
  intros w. unfold traceback_print_exc.
  destruct (stderr_ok w); [apply steady_emit | apply steady_refl].
Qed.

Create HintDb steady discriminated.

#[local] Hint Resolve Steady_ret Steady_raise Steady_gets Steady_get
  Steady_lib_call Steady_print_stdout Steady_print_stderr
  Steady_traceback_print_exception Steady_traceback_print_exc
  steady_emit steady_set_thread_locals_loop steady_set_loops
  steady_set_uv_loop steady_set_closed steady_refl : steady.

(** Splits a method body along its binds, handlers and branches. *)
Ltac steady_step :=
  match goal with
  | |- Steady (bind _ _) => apply Steady_bind; [| intros ?]
  | |- Steady (try_except _ _) => apply Steady_try_except; [| intros ?]
  | |- Steady (try_finally _ _) => apply Steady_try_finally
  | |- Steady (for_each _ _) => apply Steady_for_each; intros ?
  | |- Steady (modify _) => apply Steady_modify; intros ?
  | |- Steady (if ?c then _ else _) => destruct c
  | |- Steady (match ?c with _ => _ end) => destruct c
  | |- Steady (lib_read _) => apply Steady_lib_call
  | |- Steady (sys_exit _) => apply Steady_raise
  | |- Steady (fun w => (_, w)) => intros ?; apply steady_refl
  | |- _ => solve [auto with steady]
  end.

Ltac steady_method := repeat steady_step.

Lemma Steady_alive : Steady alive.
Proof. unfold alive. steady_method. Qed.

Lemma Steady_now : Steady now.
Proof. unfold now. steady_method. Qed.

Lemma Steady_fileno : Steady fileno.
Proof. unfold fileno. steady_method. Qed.

Lemma Steady_make_current : Steady make_current.
Proof. unfold make_current. steady_method. Qed.

Lemma Steady_update_time : Steady update_time.
Proof. unfold update_time. steady_method. Qed.

Lemma Steady_get_timeout : Steady get_timeout.
Proof. unfold get_timeout. steady_method. Qed.

Lemma Steady_run mode : Steady (run mode).
Proof. unfold run. pose proof Steady_make_current. steady_method. Qed.

Lemma Steady_stop : Steady stop.
Proof. unfold stop. steady_method. Qed.

Lemma Steady_close : Steady close.
Proof. unfold close. steady_method. Qed.

Lemma Steady_close_all_handles cb : Steady (close_all_handles cb).
Proof. unfold close_all_handles. steady_method. Qed.

Lemma Steady_default_excepthook i : Steady (default_excepthook i).
Proof. unfold default_excepthook. pose proof Steady_stop. steady_method. Qed.

Lemma Steady_call_excepthook i : Steady (call_excepthook i).
Proof.
  unfold call_excepthook. pose proof (Steady_default_excepthook i).
  steady_method.
Qed.

Lemma handle_exception_unfold current (w : World) :
  handle_exception current w = after_recording current (with_self (set_exc current) w).
Proof. reflexivity. Qed.

Lemma Steady_after_recording current : Steady (after_recording current).
Proof.
  unfold after_recording. pose proof (Steady_call_excepthook current).
  steady_method.
Qed.

Lemma Steady_keeps_event {X} (m : M World X) (w : World) ev :
  Steady m -> In ev (events w) -> In ev (events (m w).2).
Proof.
  intros Hm Hin. destruct (steady_events _ _ (Hm w)) as [new ->].
  apply in_or_app. now right.
Qed.

Lemma guard_closed {X} (w : World) (on_closed otherwise : M World X) :
  closed (self w) = true ->
  bind (gets (fun w => closed (self w)))
       (fun c => if c then on_closed else otherwise) w
  = on_closed w.
Proof. intros Hc. unfold bind, gets. now rewrite Hc. Qed.

Lemma call_excepthook_application current (w : World) result :
  excepthook (self w) = application_hook result ->
  call_excepthook current w
  = (result, emit (HookCall (self_id (self w)) current) w).
Proof.
  intros Hhook. unfold call_excepthook, bind, get, modify. now rewrite Hhook.
Qed.

Lemma call_excepthook_default current (w : World) :
  excepthook (self w) = default_hook ->
  stderr_ok w = true ->
  call_excepthook current w
  = stop (emit (PrintException current)
            (emit (Stderr "Exception happened during callback execution!") w)).
Proof.
  intros Hhook Herr.
  unfold call_excepthook, default_excepthook, bind, get,
    print_stderr, traceback_print_exception.
  rewrite Hhook, Herr. cbn. now rewrite Herr.
Qed.

(** The part of [handle_exception] that follows the hook adds events
    only. *)
Lemma after_recording_keeps_event current (w : World) ev :
  In ev (events (call_excepthook current w).2) ->
  In ev (events (after_recording current w).2).
Proof.
  unfold after_recording, try_except.
  destruct (call_excepthook current w) as [[u | e] w1]; cbn; [trivial |].
  apply Steady_keeps_event. steady_method.
Qed.

(** C2.  When the excepthook raises, [handle_exception] ends in
    [sys.exit(1)], that is, it raises [SystemExit(1)]; it does not
    return.  Before that it prints the critical line and the traceback
    of the hook's exception, both when the output streams take them. *)
Theorem excepthook_fault_exits
    (w : World) (current : exc_info) (e : exn) (w1 : World) :
  call_excepthook current (with_self (set_exc current) w) = (Raise e, w1) ->
  (handle_exception current w).1 = Raise (SystemExit 1) /\
  (handle_exception current w).1 <> Return tt /\
  (stdout_ok w1 = true -> stderr_ok w1 = true ->
     events (handle_exception current w).2
     = PrintExc e
       :: Stdout "[CRITICAL] error while executing excepthook!"
       :: events w1).
Proof.
  intros Hhook. rewrite handle_exception_unfold.
  unfold after_recording, try_except. rewrite Hhook.
  unfold try_finally, bind, print_stdout, traceback_print_exc, sys_exit, raise.
  destruct (stdout_ok w1) eqn:Hout; cbn.
  - destruct (stderr_ok w1) eqn:Herr; cbn; repeat split; congruence.
  - repeat split; congruence.
Qed.

(** The hook returning is the only way for [handle_exception] to
    return. *)
Lemma excepthook_return_returns (w : World) (current : exc_info) (w1 : World) :
  call_excepthook current (with_self (set_exc current) w) = (Return tt, w1) ->
  handle_exception current w = (Return tt, w1).
Proof.
  intros Hhook. rewrite handle_exception_unfold.
  unfold after_recording, try_except. now rewrite Hhook.
Qed.

(** C3, as the code has it.  [handle_exception] records the exception
    it is called for in [exc_type], [exc_value] and [exc_traceback] and
    passes the same three to the excepthook.  [uv_alloc_cb] does not go
    that way: when the allocator's [allocate] raises, the callback
    supplies the null, zero-length buffer, records nothing and calls no
    hook. *)
Theorem faults_reach_excepthook_but_allocation :
  (forall (w : World) (current : exc_info),
     exc_type (self (handle_exception current w).2) = info_type current /\
     exc_value (self (handle_exception current w).2) = info_value current /\
     exc_traceback (self (handle_exception current w).2) = info_traceback current /\
     (forall result, excepthook (self w) = application_hook result ->
        In (HookCall (self_id (self w)) current)
           (events (handle_exception current w).2)) /\
     (excepthook (self w) = default_hook -> stderr_ok w = true ->
        In (PrintException current) (events (handle_exception current w).2)))
  /\
  (forall (w : World) (h : handle) (n : Z) (uv_buf : uv_buf_t) (e : exn),
     (allocate (allocator (self w)) h n uv_buf).1.1 = Raise e ->
     (uv_alloc_cb h n uv_buf w).2 = {| buf_base := NULL; buf_len := 0 |} /\
     events (uv_alloc_cb h n uv_buf w).1 = events w /\
     exc_type (self (uv_alloc_cb h n uv_buf w).1) = exc_type (self w) /\
     exc_value (self (uv_alloc_cb h n uv_buf w).1) = exc_value (self w) /\
     exc_traceback (self (uv_alloc_cb h n uv_buf w).1) = exc_traceback (self w)).
Proof.
  split.
  - intros w current. rewrite handle_exception_unfold.
    set (w0 := with_self (set_exc current) w).
    destruct (steady_exc _ _ (Steady_after_recording current w0)) as (Ht & Hv & Hb).
    repeat split; [exact Ht | exact Hv | exact Hb | |].
    + intros result Hhook. apply after_recording_keeps_event.
      rewrite (call_excepthook_application current w0 result Hhook).
      now left.
    + intros Hhook Herr. apply after_recording_keeps_event.
      rewrite (call_excepthook_default current w0 Hhook Herr).
      apply Steady_keeps_event; [apply Steady_stop | now left].
  - intros w h n uv_buf e Hraise. unfold uv_alloc_cb.
    destruct (allocate (allocator (self w)) h n uv_buf) as [[r a'] buf'].
    cbn in Hraise. subst r. cbn. repeat split.
Qed.

(** C6, as the code has it.  On a closed loop [run], [now], [fileno],
    [update_time] and [get_timeout] raise [ClosedLoopError]; [alive]
    returns [False], and [stop] and [close] return without raising.
    None of them changes anything. *)
Theorem closed_loop_operations (w : World) :
  closed (self w) = true ->
  (forall mode, run mode w = (Raise ClosedLoopError, w)) /\
  now w = (Raise ClosedLoopError, w) /\
  fileno w = (Raise ClosedLoopError, w) /\
  update_time w = (Raise ClosedLoopError, w) /\
  get_timeout w = (Raise ClosedLoopError, w) /\
  alive w = (Return false, w) /\
  stop w = (Return tt, w) /\
  close w = (Return tt, w).
Proof.
  intros Hc.
  unfold run, now, fileno, update_time, get_timeout, alive, stop, close.
  repeat split; intros; now rewrite guard_closed.
Qed.

Lemma call_keeps_closed (o : op) (w : World) :
  closed (self w) = true -> closed (self (call o w).2) = true.
Proof.
  intros Hc.
  assert (Hsteady : forall m : M World value, Steady m ->
            closed (self (m w).2) = true).
  { intros m Hm. now apply (steady_closed _ _ (Hm w)). }
  pose proof Steady_alive. pose proof Steady_now. pose proof Steady_fileno.
  pose proof Steady_make_current. pose proof Steady_update_time.
  pose proof Steady_get_timeout. pose proof Steady_run.
  pose proof Steady_stop. pose proof Steady_close.
  pose proof Steady_close_all_handles.
  destruct o; cbn [call]; try solve [apply Hsteady; steady_method].
  unfold bind. rewrite handle_exception_unfold.
  pose proof (Steady_after_recording current (with_self (set_exc current) w)) as Hs.
  destruct (after_recording current (with_self (set_exc current) w))
    as [[u | e] w1]; cbn in *; now apply (steady_closed _ _ Hs).
Qed.

(** C7.  Once [closed] is true it stays true through every sequence of
    method calls on the loop, whatever each call returns or raises. *)
Theorem closed_never_reverts (ops : list op) (w : World) :
  closed (self w) = true -> closed (self (after ops w)) = true.
Proof.
  revert w. induction ops as [| o rest IH]; intros w Hc; cbn.
  - exact Hc.
  - apply IH. now apply call_keeps_closed.
Qed.

Lemma close_return_closed (w w' : World) :
  close w = (Return tt, w') -> closed (self w') = true.
Proof.
  unfold close, bind, gets, get, modify, raise, ret, lib_call.
  destruct (closed (self w)) eqn:Hc.
  - intros [= <-]. exact Hc.
  - destruct (uv_loop (self w)) as [u |]; [| discriminate].
    destruct (uv_loop_close u) as [code u'].
    destruct (code <? 0); [discriminate |]. cbn.
    destruct (decide _); [| discriminate]. cbn.
    destruct (thread_locals_loop w) as [cur |]; [| discriminate].
    destruct (decide _); cbn; intros [= <-]; reflexivity.
Qed.

(** C8.  After a [close()] that returned, another [close()] returns
    without raising and leaves the whole store as it was: the instance,
    the registry [Loop._loops] and the thread's current loop. *)
Theorem close_again_is_noop (w w' : World) :
  close w = (Return tt, w') -> close w' = (Return tt, w').
Proof.
  intros Hclose. apply close_return_closed in Hclose.
  unfold close. now rewrite guard_closed.
Qed.

End LoopFacts.

(** *** The loop facts on concrete stores *)

(** An application excepthook that raises, called for a [ValueError]. *)
Lemma excepthook_fault_exits_witness :
  (loop.handle_exception samples.a_traceback bad_hook_world).1
  = Raise (SystemExit 1).
Proof.
  apply (proj1 (excepthook_fault_exits bad_hook_world a_traceback (AppError 3)
                  (loop.emit (loop.HookCall 1%nat a_traceback)
                     (loop.with_self (loop.set_exc a_traceback) bad_hook_world))
                  eq_refl)).
Defined.

Example excepthook_fault_diagnostics :
  loop.events (loop.handle_exception a_traceback bad_hook_world).2
  = [loop.PrintExc (AppError 3);
     loop.Stdout "[CRITICAL] error while executing excepthook!";
     loop.HookCall 1%nat a_traceback].
Proof. reflexivity. Qed.

(** With the streams closed the diagnostics are lost and the exit
    stays. *)
Example excepthook_fault_mute :
  let w := {| loop.Loop_default := None; loop.Loop_loops := {[ 1%nat ]};
              loop.thread_locals_loop := Some (Some 1%nat);
              loop.stdout_ok := false; loop.stderr_ok := false;
              loop.events := [];
              loop.self := loop.self bad_hook_world |} in
  (loop.handle_exception a_traceback w).1 = Raise (SystemExit 1) /\
  loop.events (loop.handle_exception a_traceback w).2
  = [loop.HookCall 1%nat a_traceback].
Proof. split; reflexivity. Qed.

(** C3, the claim as stated fails: the application's allocator raises
    inside [uv_alloc_cb], and afterwards no exception is recorded on the
    loop and its excepthook has not been called. *)
Lemma allocation_fault_is_dropped :
  (allocate (loop.allocator (loop.self raising_world)) 1%nat 65536 a_buf).1.1
  = Raise (AppError 7) /\
  loop.excepthook (loop.self raising_world) = loop.application_hook (Return tt) /\
  loop.exc_value (loop.self (loop.uv_alloc_cb 1%nat 65536 a_buf raising_world).1)
  = None /\
  (forall i, ~ In (loop.HookCall 1%nat i)
                  (loop.events (loop.uv_alloc_cb 1%nat 65536 a_buf raising_world).1)).
Proof.
  repeat split. intros i Hin. exact Hin.
Qed.

Lemma faults_reach_excepthook_but_allocation_witness :
  (loop.uv_alloc_cb 1%nat 65536 a_buf raising_world).2
  = {| buf_base := NULL; buf_len := 0 |} /\
  In (loop.HookCall 1%nat a_traceback)
     (loop.events (loop.handle_exception a_traceback raising_world).2).
Proof.
  split.
  - apply (proj2 faults_reach_excepthook_but_allocation
             raising_world 1%nat 65536 a_buf (AppError 7)).
    reflexivity.
  - apply (proj1 faults_reach_excepthook_but_allocation
             raising_world a_traceback) with (result := Return tt).
    reflexivity.
Defined.

(** C6, the claim as stated fails: [alive] on a closed loop returns
    [False], it does not raise. *)
Lemma alive_on_closed_loop_returns :
  loop.closed (loop.self closed_world) = true /\
  (loop.call loop.Alive closed_world).1 = Return (loop.VBool false) /\
  (loop.call loop.Alive closed_world).1 <> Raise ClosedLoopError.
Proof. repeat split. discriminate. Qed.

Example stop_on_closed_loop_returns :
  (loop.call loop.Stop closed_world).1 = Return loop.VNone.
Proof. reflexivity. Qed.

Lemma closed_loop_operations_witness :
  loop.now closed_world = (Raise ClosedLoopError, closed_world) /\
  loop.alive closed_world = (Return false, closed_world).
Proof.
  pose proof (closed_loop_operations closed_world eq_refl) as Hops.
  split; apply Hops.
Defined.

Lemma closed_never_reverts_witness :
  loop.closed
    (loop.self
       (loop.after
          [loop.MakeCurrent; loop.Close; loop.HandleException a_traceback;
           loop.Run loop.NOWAIT; loop.CloseAllHandles None]
          closed_world))
  = true.
Proof. apply closed_never_reverts. reflexivity. Defined.

Lemma close_again_is_noop_witness :
  loop.close (loop.close open_world).2
  = (Return tt, (loop.close open_world).2).
Proof.
  apply (close_again_is_noop open_world). vm_compute. reflexivity.
Defined.

(** The first [close()] did remove the loop from the registry. *)
Example close_removes_from_registry :
  (loop.close open_world).1 = Return tt /\
  loop.closed (loop.self (loop.close open_world).2) = true /\
  loop.uv_loop (loop.self (loop.close open_world).2) = None /\
  loop.thread_locals_loop (loop.close open_world).2 = Some None /\
  (1%nat ∉ loop.Loop_loops (loop.close open_world).2).
Proof.
  repeat split; try reflexivity.
  change (loop.Loop_loops (loop.close open_world).2)
    with (({[ 1%nat ]} : gset nat) ∖ {[ 1%nat ]}).
  intros Hin. apply elem_of_difference in Hin as [_ Hnot].
  apply Hnot. now apply elem_of_singleton.
Qed.

(** ** Pipe *)

Section PipeFacts.

Import pipe.

Context `{Lib}.

(** C10.  On a Pipe that is closing or closed, [pending_count] returns
    0 and [pending_type] raises [ClosedHandleError]. *)
Theorem pending_accessors_differ_when_closing (self : Pipe) :
  state self = Closing \/ state self = Closed ->
  pending_count self = Return 0 /\
  pending_type self = Raise ClosedHandleError.
Proof.
  intros Hstate. unfold pending_count, pending_type, closing.
  destruct Hstate as [-> | ->]; split; reflexivity.
Qed.

Lemma until_nul_without_nul (bs : list byte) :
  Forall (fun b => is_nul b = false) bs -> until_nul bs = bs.
Proof.
  induction 1 as [| b rest Hb _ IH]; cbn; [reflexivity |].
  now rewrite Hb, IH.
Qed.

Lemma zeros_length (n : Z) : Z.of_nat (length (zeros n)) = Z.max 0 n.
Proof. unfold zeros. rewrite repeat_length. lia. Qed.

Section NameProperty.

Variable query : uv_pipe_t -> list byte -> Z -> Z * list byte * Z.
Variable self : Pipe.
Hypothesis open : closing self = false.

(** The first array cannot be provided: no call is made. *)
Lemma name_property_no_array e :
  ffi_new_fails 255 = Some e ->
  name_property query self [] = (Raise e, []).
Proof.
  intros Hfail. unfold name_property. rewrite open.
  unfold bind at 1. unfold ffi_new_chars. now rewrite Hfail.
Qed.

Hypothesis room : ffi_new_fails 255 = None.

(** The way out of a name property, given the last answer. *)
Lemma name_property_first code1 buf1 size1 :
  query (uv_pipe self) (zeros 255) 255 = (code1, buf1, size1) ->
  code1 <> ENOBUFS ->
  name_property query self []
  = (if code1 =? SUCCESS then decode (ffi_string buf1 size1)
     else Raise (UVError code1),
     [mk_probe 255 255]).
Proof.
  intros Hq Hne. unfold name_property. rewrite open.
  unfold bind at 1. unfold ffi_new_chars at 1. rewrite room.
  unfold bind at 1. unfold lib_query at 1. rewrite Hq.
  apply Z.eqb_neq in Hne. rewrite Hne.
  unfold bind, ret, raise. cbn [app].
  destruct (code1 =? SUCCESS); reflexivity.
Qed.

(** The second array cannot be provided: one call has been made. *)
Lemma name_property_no_second_array buf1 size1 e :
  query (uv_pipe self) (zeros 255) 255 = (ENOBUFS, buf1, size1) ->
  ffi_new_fails size1 = Some e ->
  name_property query self [] = (Raise e, [mk_probe 255 255]).
Proof.
  intros Hq1 Hfail. unfold name_property. rewrite open.
  unfold bind at 1. unfold ffi_new_chars at 1. rewrite room.
  unfold bind at 1. unfold lib_query at 1. rewrite Hq1.
  rewrite Z.eqb_refl.
  unfold bind, ffi_new_chars. rewrite Hfail. reflexivity.
Qed.

Lemma name_property_second buf1 size1 code2 buf2 size2 :
  query (uv_pipe self) (zeros 255) 255 = (ENOBUFS, buf1, size1) ->
  ffi_new_fails size1 = None ->
  query (uv_pipe self) (zeros size1) size1 = (code2, buf2, size2) ->
  name_property query self []
  = (if code2 =? SUCCESS then decode (ffi_string buf2 size2)
     else Raise (UVError code2),
     [mk_probe 255 255; mk_probe (Z.max 0 size1) size1]).
Proof.
  intros Hq1 Hroom Hq2. unfold name_property. rewrite open.
  unfold bind at 1. unfold ffi_new_chars at 1. rewrite room.
  unfold bind at 1. unfold lib_query at 1. rewrite Hq1.
  rewrite Z.eqb_refl.
  unfold bind, ffi_new_chars, lib_query. rewrite Hroom, Hq2. cbn [app].
  rewrite !zeros_length. change (Z.max 0 255) with 255.
  destruct (code2 =? SUCCESS); reflexivity.
Qed.

Lemma answer_decodes (name buf : list byte) (size : Z) :
  size = Z.of_nat (length name) ->
  firstn (length name) buf = name ->
  decode (ffi_string buf size) = decode (until_nul name).
Proof.
  intros -> Hfirst. unfold ffi_string. now rewrite Nat2Z.id, Hfirst.
Qed.

(** With a library that answers for [name], the result is the name up
    to its first NUL byte. *)
Lemma name_property_name (name : list byte) :
  answers query (uv_pipe self) name ->
  (name_property query self []).1 = decode (until_nul name).
Proof.
  intros [Hstatus Hsuccess Hretry [_ Hroom]].
  destruct (query (uv_pipe self) (zeros 255) 255)
    as [[code1 buf1] size1] eqn:Hq1.
  destruct (Z.eq_dec code1 ENOBUFS) as [-> | Hne].
  - pose proof (Hretry (zeros 255) 255) as Hok.
    pose proof (Hroom (zeros 255) 255) as Hfits.
    rewrite Hq1 in Hok, Hfits. cbn in Hok, Hfits.
    specialize (Hok eq_refl). specialize (Hfits eq_refl).
    pose proof (Hsuccess (zeros size1) size1 Hok) as [Hsize Hfirst].
    destruct (query (uv_pipe self) (zeros size1) size1)
      as [[code2 buf2] size2] eqn:Hq2.
    cbn in Hok, Hsize, Hfirst. subst code2.
    rewrite (name_property_second _ _ _ _ _ Hq1 Hfits Hq2), Z.eqb_refl. cbn.
    now apply answer_decodes.
  - pose proof (Hstatus (zeros 255) 255) as Hcode.
    pose proof (Hsuccess (zeros 255) 255) as Hgood.
    rewrite Hq1 in Hcode, Hgood. cbn in Hcode, Hgood.
    destruct Hcode as [-> | ->]; [| contradiction].
    destruct (Hgood eq_refl) as [Hsize Hfirst].
    rewrite (name_property_first _ _ _ Hq1 Hne), Z.eqb_refl. cbn.
    now apply answer_decodes.
Qed.

End NameProperty.

Lemma name_property_retries_once query :
  retries_once query (name_property query).
Proof.
  intros self Hopen. split.
  { intros e Hfail. now apply name_property_no_array. }
  intros Hroom code1 buf1 size1 Hq1 result calls. subst result calls.
  split; [| split].
  - intros Hne.
    rewrite (name_property_first query self Hopen Hroom _ _ _ Hq1 Hne).
    cbn. split; [reflexivity |]. split.
    + intros ->. now rewrite Z.eqb_refl.
    + intros Hbad. apply Z.eqb_neq in Hbad. now rewrite Hbad.
  - intros ->. split.
    + intros e Hfail.
      now rewrite (name_property_no_second_array query self Hopen Hroom
                     _ _ _ Hq1 Hfail).
    + intros Hfits code2 buf2 size2 Hq2.
      rewrite (name_property_second query self Hopen Hroom _ _ _ _ _
                 Hq1 Hfits Hq2).
      cbn. split; [reflexivity |]. split.
      * intros ->. now rewrite Z.eqb_refl.
      * intros Hbad. apply Z.eqb_neq in Hbad. now rewrite Hbad.
  - intros name Hanswers.
    rewrite (name_property_name query self Hopen Hroom name Hanswers).
    split; [reflexivity |].
    intros Hnul. now rewrite until_nul_without_nul.
Qed.

(** C9, as the code has it.  On a Pipe that is not closing, [sockname]
    and [peername] ask the library once with a buffer of 255 bytes and
    [*size] 255.  Unless the answer is [ENOBUFS] that is the only call;
    on [ENOBUFS] they ask [ffi.new] for a buffer of the size the library
    reported and, when they get it, call exactly once more with it; when
    they do not, the allocation's exception is raised and there is no
    second call.  The last answer decides: success returns the decoded
    string read from the buffer, any other status raises [UVError] with
    that status.  With a library that answers for a name, as spelled
    out in [answers], the result is the decoded name up to its first NUL
    byte: the whole name, however long, when it has none. *)
Theorem name_properties_retry_once :
  retries_once uv_pipe_getsockname sockname /\
  retries_once uv_pipe_getpeername peername.
Proof. split; apply name_property_retries_once. Qed.

End PipeFacts.

(** The sample library answers for the name its pipe is bound to, as
    long as [ffi.new] can provide an array one byte longer than the
    name. *)
Lemma named_query_answers (name : list byte) :
  Z.of_nat (length name) + 1 < 2 ^ 63 ->
  pipe.answers named_query name name.
Proof.
  intros Hfits. split.
  - intros buf size. unfold named_query.
    destruct (size <=? Z.of_nat (length name)); cbn; auto.
  - intros buf size. unfold named_query.
    destruct (size <=? Z.of_nat (length name)); cbn; [discriminate |].
    intros _. split; [reflexivity |].
    rewrite firstn_app, Nat.sub_diag, firstn_all. cbn. apply app_nil_r.
  - intros buf size. unfold named_query.
    destruct (size <=? Z.of_nat (length name)) eqn:Hle; cbn; [| discriminate].
    intros _. destruct (Z.leb_spec (Z.of_nat (length name) + 1)
                          (Z.of_nat (length name))); [lia | reflexivity].
  - split; [reflexivity |]. intros buf size. unfold named_query.
    destruct (size <=? Z.of_nat (length name)) eqn:Hle; cbn; [| discriminate].
    intros _.
    destruct (Z.leb_spec (2 ^ 63) (Z.of_nat (length name) + 1));
      [lia | reflexivity].
Qed.

Lemma pending_accessors_differ_when_closing_witness :
  pipe.pending_count closing_pipe = Return 0 /\
  pipe.pending_type closing_pipe = Raise ClosedHandleError.
Proof.
  apply pending_accessors_differ_when_closing. left. reflexivity.
Defined.

(** The open pipe with the same library is asked. *)
Example pending_accessors_when_open :
  pipe.pending_count long_pipe = Return 2 /\
  pipe.pending_type long_pipe = Return "Pipe"%string.
Proof. split; reflexivity. Qed.

(** A name of 300 bytes comes back whole, after a second call with a
    buffer of 301 bytes. *)
Lemma name_properties_retry_once_witness :
  (pipe.sockname long_pipe []).1 = pipe.decode long_name /\
  (pipe.sockname long_pipe []).2
  = [pipe.mk_probe 255 255; pipe.mk_probe 301 301].
Proof.
  destruct (proj2 (proj1 name_properties_retry_once long_pipe eq_refl) eq_refl
              (-105) (pipe.zeros 255) 301 eq_refl)
    as (_ & Hretry & Hname).
  split.
  - apply Hname.
    + apply named_query_answers. vm_compute. reflexivity.
    + apply List.Forall_forall. intros b Hb. apply repeat_spec in Hb. now subst b.
  - apply (proj2 (Hretry eq_refl) eq_refl 0
             (long_name ++ x00 :: skipn 301 (pipe.zeros 301)) 300).
    reflexivity.
Defined.

(** C9, the claim as stated fails: the pipe is bound in the abstract
    namespace, the library answers the first call with success and the
    whole name of three bytes, and [sockname] returns the empty string,
    which is not the decoded name. *)
Lemma abstract_name_comes_back_empty :
  pipe.closing more_samples.abstract_pipe = false /\
  (pipe.uv_pipe_getsockname (pipe.uv_pipe more_samples.abstract_pipe)
     (pipe.zeros 255) 255).1.1 = pipe.SUCCESS /\
  firstn 3 (pipe.uv_pipe_getsockname (pipe.uv_pipe more_samples.abstract_pipe)
              (pipe.zeros 255) 255).1.2
  = more_samples.abstract_name /\
  (pipe.sockname more_samples.abstract_pipe []).1 = Return ""%string /\
  pipe.decode more_samples.abstract_name <> Return ""%string.
Proof. repeat split. vm_compute. discriminate. Qed.

Example sockname_long :
  pipe.sockname long_pipe []
  = (Return (String.string_of_list_byte long_name),
     [pipe.mk_probe 255 255; pipe.mk_probe 301 301]).
Proof. vm_compute. reflexivity. Qed.

Example sockname_closing :
  pipe.sockname closing_pipe [] = (Raise ClosedHandleError, []).
Proof. reflexivity. Qed.

(** No second call when the reported size cannot be allocated. *)
Example sockname_without_room :
  @pipe.sockname more_samples.insatiable_lib
    (@pipe.mk_pipe more_samples.insatiable_lib pipe.Open tt) []
  = (Raise OverflowError, [pipe.mk_probe 255 255]).
Proof. vm_compute. reflexivity. Qed.

(** ** TCP *)

Section TCPFacts.

Import tcp.

Context `{Env}.

(** The store after [connect], by how the address collaborator
    answers: in either case the call ends before the request is
    registered and before libuv is asked. *)
Lemma connect_unfold (w : World) ip port cb :
  connect ip port cb w
  = match c_create_sockaddr ip port with
    | Raise e =>
        (Raise e, {| constructed := constructed w ++ [cb]; self := self w |})
    | Return sa =>
        (Raise (NameError "c_require"),
         {| constructed := constructed w ++ [cb];
            self := {| tcp_handle := tcp_handle (self w);
                       tcp_sockaddr := Some sa;
                       requests := requests (self w);
                       tcp_state := tcp_state (self w) |} |})
    end.
Proof.
  unfold connect, bind, ConnectRequest, lift, set_sockaddr, c_require, modify.
  cbn. now destruct (c_create_sockaddr ip port) as [sa | e].
Qed.


End TCPFacts.



(** As the code stands the call never gets as far as libuv, whatever
    libuv would answer: it ends at the unbound name. *)
Example connect_ends_at_unbound_name :
  (@tcp.connect (answering_env 0) "127.0.0.1" 80 None
     (fresh_tcp (answering_env 0) tt)).1
  = Raise (NameError "c_require") /\
  tcp.requests
    (tcp.self (@tcp.connect (answering_env 0) "127.0.0.1" 80 None
                 (fresh_tcp (answering_env 0) tt)).2)
  = ∅.
Proof. split; reflexivity. Qed.

(** * More of the code *)

(** ** Reads in sequence *)

Section ReadFacts.

Import reads.

Lemma allocate_each_in_use args (self : DefaultAllocator) uv_buf :
  buffer_in_use self = true ->
  (allocate_each args self uv_buf).1
  = repeat {| buf_base := NULL; buf_len := 0 |} (length args).
Proof.
  revert self. induction args as [| [h size] rest IH]; intros self Huse; cbn.
  - reflexivity.
  - unfold default_allocate. rewrite Huse. cbn.
    specialize (IH (set_in_use true self) eq_refl).
    destruct (allocate_each rest (set_in_use true self) uv_buf) as [later last].
    cbn in *. now rewrite IH.
Qed.

(** X1.  Of the [allocate] calls made on a free allocator before any
    [finalize], the first is given the allocator's buffer with its full
    size and every later one the null, zero-length buffer. *)
Theorem only_first_allocate_gets_buffer
    (self : DefaultAllocator) h suggested_size rest uv_buf :
  buffer_in_use self = false ->
  (allocate_each ((h, suggested_size) :: rest) self uv_buf).1
  = {| buf_base := c_buffer self; buf_len := buffer_size self |}
    :: repeat {| buf_base := NULL; buf_len := 0 |} (length rest).
Proof.
  intros Hfree. cbn. unfold default_allocate. rewrite Hfree. cbn.
  pose proof (allocate_each_in_use rest (set_in_use true self) uv_buf eq_refl) as Hrest.
  destruct (allocate_each rest (set_in_use true self) uv_buf) as [later last].
  cbn in *. now rewrite Hrest.
Qed.

(** X2.  After a [finalize], whatever length and buffer it was called
    with and whatever the flag was before, the next [allocate] is given
    the allocator's own buffer again, at the same address and with the
    same size. *)
Theorem buffer_reused_after_finalize
    (self : DefaultAllocator) h n uv_buf mem h' suggested_size uv_buf' :
  (default_allocate (default_finalize self h n uv_buf mem).2
     h' suggested_size uv_buf').2
  = {| buf_base := c_buffer self; buf_len := buffer_size self |} /\
  c_buffer (default_allocate (default_finalize self h n uv_buf mem).2
              h' suggested_size uv_buf').1.2 = c_buffer self /\
  buffer_size (default_allocate (default_finalize self h n uv_buf mem).2
                 h' suggested_size uv_buf').1.2 = buffer_size self.
Proof. repeat split. Qed.

End ReadFacts.

Lemma only_first_allocate_gets_buffer_witness :
  (reads.allocate_each [(1%nat, 65536); (2%nat, 65536); (3%nat, 1024)]
     default_allocator a_buf).1
  = [ {| buf_base := 4096; buf_len := 65536 |};
      {| buf_base := NULL; buf_len := 0 |};
      {| buf_base := NULL; buf_len := 0 |} ].
Proof.
  apply (only_first_allocate_gets_buffer default_allocator 1%nat 65536
           [(2%nat, 65536); (3%nat, 1024)] a_buf).
  reflexivity.
Defined.

(** ** The loop's methods on an open loop *)

Section LoopMore.

Import loop loop_inv.

Context `{Lib} {A : Type} `{Allocator A}.

#[local] Abbreviation World := (loop.World A).
#[local] Abbreviation Settled := (loop_inv.Settled (A:=A)).
#[local] Abbreviation settled := (loop_inv.settled (A:=A)).
#[local] Abbreviation consistent := (loop_inv.consistent (A:=A)).

Lemma settled_refl (w : World) : settled w w.
Proof. split; auto. Qed.

Lemma settled_trans (w1 w2 w3 : World) :
  settled w1 w2 -> settled w2 w3 -> settled w1 w3.
Proof.
  intros [c1 l1 u1 d1 i1 f1] [c2 l2 u2 d2 i2 f2].
  split; [auto | congruence | auto | congruence | congruence | congruence].
Qed.

Lemma Settled_ret {X} (x : X) : Settled (ret x : M World X).
Proof. intros w. apply settled_refl. Qed.

Lemma Settled_raise {X} e : Settled (@raise World X e).
Proof. intros w. apply settled_refl. Qed.

Lemma Settled_gets {X} (f : World -> X) : Settled (gets f).
Proof. intros w. apply settled_refl. Qed.

Lemma Settled_get : Settled (@get World).
Proof. intros w. apply settled_refl. Qed.

Lemma Settled_bind {X Y} (m : M World X) (k : X -> M World Y) :
  Settled m -> (forall x, Settled (k x)) -> Settled (bind m k).
Proof.
  intros Hm Hk w. unfold bind. specialize (Hm w).
  destruct (m w) as [[x | e] w1]; cbn in *; [| exact Hm].
  eapply settled_trans; [exact Hm | apply Hk].
Qed.

Lemma Settled_try_except {X} (body : M World X) handler :
  Settled body -> (forall e, Settled (handler e)) ->
  Settled (try_except body handler).
Proof.
  intros Hb Hh w. unfold try_except. specialize (Hb w).
  destruct (body w) as [[x | e] w1]; cbn in *; [exact Hb |].
  eapply settled_trans; [exact Hb | apply Hh].
Qed.

Lemma Settled_try_finally {X} (body : M World X) fin :
  Settled body -> Settled fin -> Settled (try_finally body fin).
Proof.
  intros Hb Hf w. unfold try_finally. specialize (Hb w).
  destruct (body w) as [r w1]. specialize (Hf w1).
  destruct (fin w1) as [[u | e] w2]; cbn in *; eapply settled_trans; eauto.
Qed.

Lemma Settled_for_each {X} (xs : list X) body :
  (forall x, Settled (body x)) -> Settled (for_each xs body).
Proof.
  intros Hb. induction xs as [| x rest IH]; cbn.
  - apply Settled_ret.
  - apply Settled_bind; auto.
Qed.

Lemma Settled_modify (f : World -> World) :
  (forall w, settled w (f w)) -> Settled (modify f).
Proof. intros Hf w. apply Hf. Qed.

Lemma settled_emit e (w : World) : settled w (emit e w).
Proof. split; auto. Qed.

Lemma settled_make_current id (w : World) :
  settled w (set_thread_locals_loop (Some (Some id)) w).
Proof. split; cbn; auto. Qed.

Lemma settled_set_exc i (w : World) : settled w (with_self (set_exc i) w).
Proof. split; auto. Qed.

Lemma Settled_lib_call {X} (f : uv_loop_t -> X * uv_loop_t) : Settled (lib_call f).
Proof.
  intros w. unfold lib_call. destruct (uv_loop (self w)) as [u |]; cbn.
  - destruct (f u) as [x u']. split; cbn; auto.
  - apply settled_refl.
Qed.

Lemma Settled_print_stdout line : Settled (print_stdout line).
Proof.
  intros w. unfold print_stdout.
  destruct (stdout_ok w); [apply settled_emit | apply settled_refl].
Qed.

Lemma Settled_print_stderr line : Settled (print_stderr line).
Proof.
  intros w. unfold print_stderr.
  destruct (stderr_ok w); [apply settled_emit | apply settled_refl].
Qed.

Lemma Settled_traceback_print_exception i : Settled (traceback_print_exception i).
Proof.
  intros w. unfold traceback_print_exception.
  destruct (stderr_ok w); [apply settled_emit | apply settled_refl].
Qed.

Lemma Settled_traceback_print_exc e : Settled (traceback_print_exc e).
Proof.
  intros w. unfold traceback_print_exc.
  destruct (stderr_ok w); [apply settled_emit | apply settled_refl].
Qed.

Create HintDb settled discriminated.

#[local] Hint Resolve Settled_ret Settled_raise Settled_gets Settled_get
  Settled_lib_call Settled_print_stdout Settled_print_stderr
  Settled_traceback_print_exception Settled_traceback_print_exc
  settled_emit settled_make_current settled_set_exc settled_refl : settled.

Ltac settled_step :=
  match goal with
  | |- loop_inv.Settled (bind _ _) => apply Settled_bind; [| intros ?]
  | |- loop_inv.Settled (try_except _ _) => apply Settled_try_except; [| intros ?]
  | |- loop_inv.Settled (try_finally _ _) => apply Settled_try_finally
  | |- loop_inv.Settled (for_each _ _) => apply Settled_for_each; intros ?
  | |- loop_inv.Settled (modify _) => apply Settled_modify; intros ?
  | |- loop_inv.Settled (if ?c then _ else _) => destruct c
  | |- loop_inv.Settled (match ?c with _ => _ end) => destruct c
  | |- loop_inv.Settled (lib_read _) => apply Settled_lib_call
  | |- loop_inv.Settled (sys_exit _) => apply Settled_raise
  | |- loop_inv.Settled (fun w => (_, w)) => intros ?; apply settled_refl
  | |- _ => solve [auto with settled]
  end.

Ltac settled_method := repeat settled_step.

Lemma Settled_make_current : Settled make_current.
Proof. unfold make_current. settled_method. Qed.

Lemma Settled_stop : Settled stop.
Proof. unfold stop. settled_method. Qed.

Lemma Settled_handle_exception current : Settled (handle_exception current).
Proof.
  unfold handle_exception, call_excepthook, default_excepthook.
  pose proof Settled_stop. settled_method.
Qed.

(** Every method but [close] keeps the thread's attribute set, the
    registry, the C loop present and the flag. *)
Lemma Settled_call (o : op) : o <> Close -> Settled (call o).
Proof.
  intros Hnot. pose proof Settled_make_current. pose proof Settled_stop.
  pose proof Settled_handle_exception.
  destruct o; [| | | | | | | | contradiction | |];
    unfold call, alive, now, fileno, update_time, get_timeout, run,
      close_all_handles;
    settled_method.
Qed.

Lemma settled_consistent (w w' : World) :
  settled w w' -> consistent w -> consistent w'.
Proof.
  intros [Hcur Hloops Huv Hclosed Hid _] [Hattr Hopen]. split; [auto |].
  rewrite Hclosed, Hid, Hloops. intros Hc.
  destruct (Hopen Hc) as [Hin Hsome]. auto.
Qed.

(** What [close] does to an open loop, by the status libuv gives. *)
Lemma close_refused (w : World) u code u' :
  closed (self w) = false ->
  uv_loop (self w) = Some u ->
  uv_loop_close u = (code, u') ->
  code < 0 ->
  close w = (Raise (UVError code), with_self (set_uv_loop (Some u')) w).
Proof.
  intros Hc Hu Hclose Hneg.
  unfold close, bind, gets, lib_call, raise.
  rewrite Hc, Hu, Hclose. apply Z.ltb_lt in Hneg. now rewrite Hneg.
Qed.

Lemma close_accepted (w : World) u code u' cur :
  closed (self w) = false ->
  uv_loop (self w) = Some u ->
  uv_loop_close u = (code, u') ->
  0 <= code ->
  self_id (self w) ∈ Loop_loops w ->
  thread_locals_loop w = Some cur ->
  exists w',
    close w = (Return tt, w') /\
    closed (self w') = true /\
    uv_loop (self w') = None /\
    self_id (self w') = self_id (self w) /\
    Loop_loops w' = Loop_loops w ∖ {[ self_id (self w) ]} /\
    thread_locals_loop w'
    = (if decide (cur = Some (self_id (self w))) then Some None else Some cur) /\
    events w' = events w /\
    Loop_default w' = Loop_default w.
Proof.
  intros Hc Hu Hclose Hcode Hin Hcur.
  unfold close, bind, gets, get, modify, raise, ret, lib_call.
  rewrite Hc, Hu, Hclose.
  destruct (Z.ltb_spec code 0) as [? | _]; [lia |]. cbn.
  destruct (decide _) as [_ | Hout]; [| contradiction]. cbn.
  rewrite Hcur.
  destruct (decide (cur = Some (self_id (self w)))) as [Heq | Hne]; cbn;
    eexists; repeat split; exact Hcur.
Qed.

(** X3.  When libuv refuses to close the loop (a negative status, as
    with handles still active), [close] raises [UVError] with that
    status and the loop stays open: the flag, the registry and the
    thread's current loop are as before, and the C loop is the one
    libuv left. *)
Theorem refused_close_leaves_loop_open (w : World) u code u' :
  closed (self w) = false ->
  uv_loop (self w) = Some u ->
  uv_loop_close u = (code, u') ->
  code < 0 ->
  (close w).1 = Raise (UVError code) /\
  closed (self (close w).2) = false /\
  uv_loop (self (close w).2) = Some u' /\
  Loop_loops (close w).2 = Loop_loops w /\
  thread_locals_loop (close w).2 = thread_locals_loop w /\
  events (close w).2 = events w.
Proof.
  intros Hc Hu Hclose Hneg.
  rewrite (close_refused w u code u' Hc Hu Hclose Hneg). cbn.
  repeat split. exact Hc.
Qed.

(** X4.  When libuv accepts, [close] on a consistent open loop
    returns; the loop is then closed, has no C loop, is out of
    [Loop._loops] while every other loop stays in, and the thread's
    current loop is reset to [None] exactly when it was this loop. *)
Theorem accepted_close_unregisters (w : World) u code u' :
  consistent w ->
  closed (self w) = false ->
  uv_loop (self w) = Some u ->
  uv_loop_close u = (code, u') ->
  0 <= code ->
  (close w).1 = Return tt /\
  closed (self (close w).2) = true /\
  uv_loop (self (close w).2) = None /\
  Loop_loops (close w).2 = Loop_loops w ∖ {[ self_id (self w) ]} /\
  (thread_locals_loop w = Some (Some (self_id (self w))) ->
   thread_locals_loop (close w).2 = Some None) /\
  (thread_locals_loop w <> Some (Some (self_id (self w))) ->
   thread_locals_loop (close w).2 = thread_locals_loop w).
Proof.
  intros [[cur Hcur] Hopen] Hc Hu Hclose Hcode.
  destruct (Hopen Hc) as [Hin _].
  destruct (close_accepted w u code u' cur Hc Hu Hclose Hcode Hin Hcur)
    as (w' & -> & Hclosed & Hnone & _ & Hloops & Htl & _).
  cbn. repeat split; try assumption.
  - intros Hwas. rewrite Htl. rewrite Hcur in Hwas. injection Hwas as ->.
    now destruct (decide _).
  - intros Hnot. rewrite Htl, Hcur. rewrite Hcur in Hnot.
    destruct (decide _) as [-> | _]; [contradiction | reflexivity].
Qed.

Lemma close_consistent (w : World) : consistent w -> consistent (close w).2.
Proof.
  intros Hcons. destruct (closed (self w)) eqn:Hc.
  - unfold close. rewrite guard_closed by exact Hc. exact Hcons.
  - pose proof Hcons as [[cur Hcur] Hopen].
    destruct (Hopen Hc) as [Hin [u Hu]].
    destruct (uv_loop_close u) as [code u'] eqn:Hclose.
    destruct (Z.lt_ge_cases code 0) as [Hneg | Hok].
    + rewrite (close_refused w u code u' Hc Hu Hclose Hneg). cbn.
      split; [exact (ex_intro _ cur Hcur) |]. intros _. cbn. split; [exact Hin | eauto].
    + destruct (close_accepted w u code u' cur Hc Hu Hclose Hok Hin Hcur)
        as (w' & -> & Hclosed & _ & _ & _ & Htl & _).
      cbn. split.
      * rewrite Htl. destruct (decide _); eauto.
      * rewrite Hclosed. discriminate.
Qed.

Lemma call_consistent (o : op) (w : World) :
  consistent w -> consistent (call o w).2.
Proof.
  intros Hcons.
  assert (o = Close \/ o <> Close) as [-> | Hnot]
    by (destruct o; (now left) || (right; discriminate)).
  - cbn [call]. unfold bind. pose proof (close_consistent w Hcons) as Hafter.
    destruct (close w) as [[u | e] w']; exact Hafter.
  - eapply settled_consistent; [apply Settled_call; exact Hnot | exact Hcons].
Qed.

(** X5.  A consistent loop (the thread has a current-loop attribute,
    and while open the loop is registered and has its C loop) stays
    consistent through every sequence of method calls. *)
Theorem consistent_through_calls (ops : list op) (w : World) :
  consistent w -> consistent (after ops w).
Proof.
  revert w. induction ops as [| o rest IH]; intros w Hcons; cbn.
  - exact Hcons.
  - apply IH. now apply call_consistent.
Qed.

End LoopMore.

Section LoopOutcomes.

Import loop loop_inv.

Context `{Lib} {A : Type} `{Allocator A}.

#[local] Abbreviation World := (loop.World A).
#[local] Abbreviation consistent := (loop_inv.consistent (A:=A)).


(** Running the close requests one after the other. *)
Lemma for_each_emit (f : handle -> event) hs (w : World) :
  for_each hs (fun h => modify (emit (f h))) w
  = (Return tt, fold_left (fun w h => emit (f h) w) hs w).
Proof.
  revert w. induction hs as [| h rest IH]; intros w; cbn; [reflexivity |].
  unfold bind, modify. apply IH.
Qed.

Lemma fold_emit_events (f : handle -> event) hs (w : World) :
  events (fold_left (fun w h => emit (f h) w) hs w) = rev (map f hs) ++ events w /\
  self (fold_left (fun w h => emit (f h) w) hs w) = self w /\
  Loop_loops (fold_left (fun w h => emit (f h) w) hs w) = Loop_loops w /\
  thread_locals_loop (fold_left (fun w h => emit (f h) w) hs w)
  = thread_locals_loop w.
Proof.
  revert w. induction hs as [| h rest IH]; intros w; cbn; [auto |].
  destruct (IH (emit (f h) w)) as (He & Hs & Hl & Ht).
  rewrite He, Hs, Hl, Ht. cbn. repeat split. now rewrite <- app_assoc.
Qed.

Lemma close_all_handles_run cb (w : World) :
  close_all_handles cb w
  = (Return tt,
     fold_left (fun w h => emit (HandleClose h cb) w)
       (elements (handles (self w))) w).
Proof. unfold close_all_handles, bind, gets. apply for_each_emit. Qed.


(** X7.  With the default excepthook and a [sys.stderr] that takes
    output, [handle_exception] returns: it has recorded the exception,
    written the notice and the traceback, and asked libuv to stop the
    loop (nothing is asked of a closed loop). *)
Theorem default_excepthook_logs_and_stops current (w : World) :
  excepthook (self w) = default_hook ->
  stderr_ok w = true ->
  closed (self w) = true \/ is_Some (uv_loop (self w)) ->
  (handle_exception current w).1 = Return tt /\
  events (handle_exception current w).2
  = PrintException current
    :: Stderr "Exception happened during callback execution!"
    :: events w /\
  exc_value (self (handle_exception current w).2) = info_value current /\
  (closed (self w) = true ->
   uv_loop (self (handle_exception current w).2) = uv_loop (self w)) /\
  (closed (self w) = false ->
   uv_loop (self (handle_exception current w).2)
   = uv_stop <$> uv_loop (self w)).
Proof.
  intros Hhook Herr Hloop. rewrite handle_exception_unfold.
  unfold after_recording, try_except.
  rewrite (call_excepthook_default current (with_self (set_exc current) w)
             Hhook Herr).
  unfold stop, bind, gets, lib_call, ret. cbn.
  destruct (closed (self w)) eqn:Hc; cbn.
  - repeat split; congruence.
  - destruct Hloop as [? | [u Hu]]; [discriminate |]. rewrite Hu. cbn.
    repeat split; congruence.
Qed.

(** X8.  With the default excepthook and a [sys.stderr] that refuses
    output, the hook fails on its first line, so [handle_exception]
    ends in [SystemExit(1)] and the loop has not been asked to stop.
    The critical line still goes to [sys.stdout] when that one takes
    it. *)
Theorem default_excepthook_mute_exits current (w : World) :
  excepthook (self w) = default_hook ->
  stderr_ok w = false ->
  (handle_exception current w).1 = Raise (SystemExit 1) /\
  uv_loop (self (handle_exception current w).2) = uv_loop (self w) /\
  (stdout_ok w = true ->
   events (handle_exception current w).2
   = Stdout "[CRITICAL] error while executing excepthook!" :: events w) /\
  (stdout_ok w = false -> events (handle_exception current w).2 = events w).
Proof.
  intros Hhook Herr. rewrite handle_exception_unfold.
  unfold after_recording, try_except, call_excepthook, default_excepthook,
    bind, get, print_stderr.
  cbn. rewrite Hhook. cbn. rewrite Herr.
  unfold try_finally, print_stdout, traceback_print_exc, sys_exit, raise. cbn.
  destruct (stdout_ok w) eqn:Hout; cbn; rewrite ?Herr; cbn;
    repeat split; congruence.
Qed.

(** X9.  [close_all_handles] returns on any loop, open or closed, and
    issues one close request per handle of [self.handles], each with the
    callback it was given; nothing else changes. *)
Theorem close_all_handles_requests cb (w : World) :
  (close_all_handles cb w).1 = Return tt /\
  events (close_all_handles cb w).2 = close_requests cb w ++ events w /\
  self (close_all_handles cb w).2 = self w /\
  Loop_loops (close_all_handles cb w).2 = Loop_loops w /\
  length (close_requests cb w) = size (handles (self w)) /\
  List.NoDup (close_requests cb w) /\
  (forall h, h ∈ handles (self w) <-> In (HandleClose h cb) (close_requests cb w)).
Proof.
  rewrite close_all_handles_run. cbn.
  destruct (fold_emit_events (fun h => HandleClose h cb)
              (elements (handles (self w))) w) as (He & Hs & Hl & _).
  unfold close_requests. repeat split; try assumption.
  - now rewrite length_rev, length_map.
  - apply List.NoDup_rev, NoDup_ListNoDup.
    assert (Inj (=) (=) (fun h : handle => HandleClose h cb)) as Hinj
      by (intros h1 h2 [= ->]; reflexivity).
    change (NoDup ((fun h : handle => HandleClose h cb)
                     <$> elements (handles (self w)))).
    apply (NoDup_fmap_2 _). apply NoDup_elements.
  - intros Hin. apply in_rev. rewrite rev_involutive.
    apply (in_map (fun h : handle => HandleClose h cb)).
    apply list_elem_of_In. now apply elem_of_elements.
  - intros Hin. apply in_rev in Hin.
    apply in_map_iff in Hin as (h' & [= ->] & Hin).
    apply elem_of_elements. now apply list_elem_of_In.
Qed.

End LoopOutcomes.

Section AllocCallback.

Import loop.

Context `{Lib}.

(** X10.  On a loop with the default allocator whose buffer is free,
    the first [uv_alloc_cb] hands libuv the allocator's buffer and the
    next one, with no [finalize] in between, the null, zero-length
    buffer; neither records an exception or adds an event. *)
Theorem second_read_gets_no_buffer
    (w : loop.World DefaultAllocator) h1 size1 buf1 h2 size2 buf2 :
  buffer_in_use (allocator (self w)) = false ->
  (uv_alloc_cb h1 size1 buf1 w).2
  = {| buf_base := c_buffer (allocator (self w));
       buf_len := buffer_size (allocator (self w)) |} /\
  (uv_alloc_cb h2 size2 buf2 (uv_alloc_cb h1 size1 buf1 w).1).2
  = {| buf_base := NULL; buf_len := 0 |} /\
  events (uv_alloc_cb h2 size2 buf2 (uv_alloc_cb h1 size1 buf1 w).1).1
  = events w /\
  exc_value (self (uv_alloc_cb h2 size2 buf2 (uv_alloc_cb h1 size1 buf1 w).1).1)
  = exc_value (self w).
Proof.
  intros Hfree. unfold uv_alloc_cb. cbn. unfold default_allocate.
  rewrite Hfree. cbn. repeat split.
Qed.

End AllocCallback.

(** ** Pipe: the other methods *)

Section PipeMore.

Import pipe pipe_setup.

Context `{pipe_setup.Lib}.

Lemma until_nul_no_nul (bs : list byte) :
  Forall (fun b => is_nul b = false) (until_nul bs).
Proof.
  induction bs as [| b rest IH]; cbn; [constructor |].
  destruct (is_nul b) eqn:Hb; constructor; assumption.
Qed.

Lemma until_nul_prefix (bs : list byte) :
  exists rest, bs = until_nul bs ++ rest.
Proof.
  induction bs as [| b tail [rest IH]]; cbn; [now exists [] |].
  destruct (is_nul b).
  - now exists (b :: tail).
  - exists rest. cbn. now rewrite <- IH.
Qed.

(** X11.  On a Pipe that is closing or closed, [open], [bind],
    [sockname], [peername] and [pending_accept] raise
    [ClosedHandleError] and leave the pipe as it is: the name
    properties make no library call and [pending_accept] does not reach
    [accept].  [pending_instances] has no such test and passes the
    amount to libuv all the same. *)
Theorem closing_pipe_refuses {X} (self : Pipe) fd path amount
    (accept : string -> M Pipe X) :
  closing self = true ->
  Pipe_open fd self = (Raise ClosedHandleError, self) /\
  Pipe_bind path self = (Raise ClosedHandleError, self) /\
  sockname self [] = (Raise ClosedHandleError, []) /\
  peername self [] = (Raise ClosedHandleError, []) /\
  pending_accept accept self = (Raise ClosedHandleError, self) /\
  pending_instances amount self
  = (Return tt,
     set_uv_pipe (uv_pipe_pending_instances (uv_pipe self) amount) self).
Proof.
  intros Hc.
  unfold Pipe_open, Pipe_bind, sockname, peername, name_property,
    pending_accept, pending_type, pending_instances, bind, gets, raise, modify.
  rewrite Hc. repeat split.
Qed.

(** X12.  On a Pipe that is not closing, [open] and [bind] return
    exactly when libuv's status is [SUCCESS]; every other status,
    positive ones included, is raised as [UVError] with that status.
    Either way the pipe then holds the C pipe as libuv left it.  A path
    that cannot be encoded raises before libuv is asked. *)
Theorem setup_status_surfaces (self : Pipe) fd path :
  closing self = false ->
  (forall code p, cross_uv_pipe_open (uv_pipe self) fd = (code, p) ->
     Pipe_open fd self
     = (if code =? SUCCESS then Return tt else Raise (UVError code),
        set_uv_pipe p self)) /\
  (forall encoded code p, encode path = Return encoded ->
     uv_pipe_bind (uv_pipe self) encoded = (code, p) ->
     Pipe_bind path self
     = (if code =? SUCCESS then Return tt else Raise (UVError code),
        set_uv_pipe p self)) /\
  (forall e, encode path = Raise e -> Pipe_bind path self = (Raise e, self)).
Proof.
  intros Hc. unfold Pipe_open, Pipe_bind, bind, gets, lib_status, raise, ret.
  rewrite Hc. repeat split.
  - intros code p Hopen. rewrite Hopen. now destruct (code =? SUCCESS).
  - intros encoded code p Henc Hbind. rewrite Henc, Hbind.
    now destruct (code =? SUCCESS).
  - intros e Henc. now rewrite Henc.
Qed.

(** X13.  Whatever the library answers and whatever the state of the
    pipe, a name property calls it at most twice, and each call states a
    [*size] that is no larger than the buffer it hands over. *)
Theorem name_queries_fit_buffer
    (query : uv_pipe_t -> list byte -> Z -> Z * list byte * Z) (self : Pipe) :
  (length (name_property query self []).2 <= 2)%nat /\
  Forall (fun c => probe_size c <= probe_capacity c)
         (name_property query self []).2.
Proof.
  destruct (closing self) eqn:Hc.
  - unfold name_property. rewrite Hc. cbn. split; [lia | constructor].
  - destruct (ffi_new_fails 255) as [e |] eqn:Hroom.
    { rewrite (name_property_no_array query self Hc e Hroom). cbn.
      split; [lia | constructor]. }
    destruct (query (uv_pipe self) (zeros 255) 255)
      as [[code1 buf1] size1] eqn:Hq1.
    destruct (Z.eq_dec code1 ENOBUFS) as [-> | Hne].
    + destruct (ffi_new_fails size1) as [e |] eqn:Hfits.
      { rewrite (name_property_no_second_array query self Hc Hroom _ _ e
                   Hq1 Hfits). cbn.
        split; [lia | repeat constructor; cbn; lia]. }
      destruct (query (uv_pipe self) (zeros size1) size1)
        as [[code2 buf2] size2] eqn:Hq2.
      rewrite (name_property_second query self Hc Hroom _ _ _ _ _
                 Hq1 Hfits Hq2). cbn.
      split; [lia | repeat constructor; cbn; lia].
    + rewrite (name_property_first query self Hc Hroom _ _ _ Hq1 Hne). cbn.
      split; [lia | repeat constructor; cbn; lia].
Qed.

(** X14.  With a library that answers for [name] (see [answers]),
    [sockname] and [peername] return the decoded bytes of [name] that
    come before its first NUL byte: a name is cut at an embedded NUL,
    and a name that starts with one comes back empty. *)
Theorem name_is_cut_at_nul
    (query : uv_pipe_t -> list byte -> Z -> Z * list byte * Z)
    (self : Pipe) (name : list byte) :
  closing self = false ->
  answers query (uv_pipe self) name ->
  (name_property query self []).1 = decode (until_nul name).
Proof.
  intros Hopen Hanswers.
  apply name_property_name; [exact Hopen | apply Hanswers | exact Hanswers].
Qed.

End PipeMore.

(** ** TCP: binding and the requests set *)

Section TCPMore.

Import tcp tcp_bind.

Context `{tcp_bind.Lib}.

(** X15.  [connect] never takes a request out of [self.requests]:
    however the call ends, every request registered before is
    registered after, and exactly one [ConnectRequest] has been
    constructed. *)
Theorem connect_never_unregisters (w : World) ip port cb :
  requests (self w) ⊆ requests (self (connect ip port cb w).2) /\
  length (constructed (connect ip port cb w).2) = S (length (constructed w)).
Proof.
  rewrite connect_unfold.
  destruct (c_create_sockaddr ip port) as [sa | e]; cbn;
    (split; [reflexivity | rewrite length_app; cbn; lia]).
Qed.

(** X16.  When the address cannot be built, [connect] raises what the
    address collaborator raised; nothing is registered, libuv is not
    asked and [self.sockaddr] keeps its value. *)
Theorem connect_bad_address (w : World) ip port cb e :
  c_create_sockaddr ip port = Raise e ->
  (connect ip port cb w).1 = Raise e /\
  self (connect ip port cb w).2 = self w.
Proof.
  intros Haddr. rewrite connect_unfold, Haddr. cbn. split; reflexivity.
Qed.

(** X18.  [TCP.bind] stores the address before it asks libuv: when
    libuv refuses (negative status) the call raises [UVError] with that
    status and [self.sockaddr] is the new address all the same; when
    the address cannot be built nothing changes.  [bind] never touches
    [self.requests]. *)
Theorem bind_keeps_address_when_refused (w : World) ip port flags :
  (forall sa code t',
     c_create_sockaddr ip port = Return sa ->
     uv_tcp_bind (tcp_handle (self w)) sa flags = (code, t') ->
     (TCP_bind ip port flags w).1
     = (if code <? 0 then Raise (UVError code) else Return tt) /\
     tcp_sockaddr (self (TCP_bind ip port flags w).2) = Some sa /\
     tcp_handle (self (TCP_bind ip port flags w).2) = t') /\
  (forall e, c_create_sockaddr ip port = Raise e ->
     TCP_bind ip port flags w = (Raise e, w)) /\
  requests (self (TCP_bind ip port flags w).2) = requests (self w) /\
  constructed (TCP_bind ip port flags w).2 = constructed w.
Proof.
  unfold TCP_bind, bind, lift, set_sockaddr, lib_uv_tcp_bind, modify, raise, ret.
  destruct (c_create_sockaddr ip port) as [sa | e]; cbn.
  - destruct (uv_tcp_bind (tcp_handle (self w)) sa flags) as [code t'] eqn:Hb.
    cbn. split; [| split; [| split]].
    + intros sa' code' t'' [= <-] Hbind. rewrite Hb in Hbind.
      injection Hbind as <- <-.
      destruct (code <? 0); repeat split.
    + intros e [=].
    + now destruct (code <? 0).
    + now destruct (code <? 0).
  - split; [| split; [| split]]; try reflexivity.
    + intros sa code t' [=].
    + intros e' [= <-]. reflexivity.
Qed.

End TCPMore.

(** ** Constructing loops; the default loop, the current loop and the registry *)

Section RegistrySteps.

Import loop loop_inv.

Context `{Lib} {A : Type}.

#[local] Abbreviation World := (loop.World A).

(** What one method call does to the flag and the registry: nothing,
    or, for the [close] that closes, the loop leaves the registry. *)
Lemma call_registry_step (o : op) (w : World) :
  consistent w ->
  self_id (self (call o w).2) = self_id (self w) /\
  Loop_default (call o w).2 = Loop_default w /\
  consistent (call o w).2 /\
  ((closed (self (call o w).2) = closed (self w) /\
    Loop_loops (call o w).2 = Loop_loops w) \/
   (closed (self w) = false /\
    closed (self (call o w).2) = true /\
    Loop_loops (call o w).2 = Loop_loops w ∖ {[ self_id (self w) ]})).
Proof.
  intros Hcons.
  assert (o = Close \/ o <> Close) as [-> | Hnot]
    by (destruct o; (now left) || (right; discriminate)).
  - assert (Hsame : (call Close w).2 = (close w).2).
    { cbn [call]. unfold bind. now destruct (close w) as [[u | e] w']. }
    rewrite Hsame. pose proof (close_consistent w Hcons) as Hafter.
    pose proof Hcons as [[cur Hcur] Hopen].
    destruct (closed (self w)) eqn:Hc.
    + unfold close in *. rewrite guard_closed in * by exact Hc. cbn.
      split; [reflexivity |]. split; [reflexivity |]. split; [exact Hcons |].
      left. now split.
    + destruct (Hopen eq_refl) as [Hin [u Hu]].
      destruct (uv_loop_close u) as [code u'] eqn:Hclose.
      destruct (Z.lt_ge_cases code 0) as [Hneg | Hok].
      * rewrite (close_refused w u code u' Hc Hu Hclose Hneg) in *. cbn.
        split; [reflexivity |]. split; [reflexivity |]. split; [exact Hafter |].
        left. now split.
      * destruct (close_accepted w u code u' cur Hc Hu Hclose Hok Hin Hcur)
          as (w' & Heq & Hclosed & _ & Hid & Hloops & _ & _ & Hdef).
        rewrite Heq in *. cbn in *.
        split; [exact Hid |]. split; [exact Hdef |]. split; [exact Hafter |].
        right. now repeat split.
  - destruct (Settled_call o Hnot w) as [_ Hloops _ Hclosed Hid Hdef].
    split; [exact Hid |]. split; [exact Hdef |].
    split; [now apply (call_consistent o w) |].
    left. now split.
Qed.

End RegistrySteps.

Section RegistryFacts.

Import loop loop_inv registry.

Context `{registry.Lib} {A : Type} `{!registry.Truth A}.

#[local] Abbreviation Process := (registry.Process A).

(** A constructor call that does not return a loop leaves only a
    used-up identity. *)
Lemma Loop_init_not_ok locked allocator default buffer_size (P : Process) r P' :
  Loop_init locked allocator default buffer_size P = (r, P') ->
  (forall id, r <> Ok id) -> P' = dropped P.
Proof.
  unfold Loop_init. intros Hinit Hno.
  destruct (init_uv_loop default P) as [u | r0 |];
    [| now injection Hinit as <- <- | now injection Hinit as <- <-].
  destruct (init_allocator allocator buffer_size P) as [a | r0 |];
    [| now injection Hinit as <- <- | now injection Hinit as <- <-].
  destruct locked; injection Hinit as <- <-; [reflexivity |].
  now contradiction (Hno (next_id P)).
Qed.

Lemma Loop_init_ok locked allocator default buffer_size (P : Process) id P' :
  Loop_init locked allocator default buffer_size P = (Ok id, P') ->
  locked = false /\
  id = next_id P /\
  exists l,
    objects P' = <[ id := l ]> (objects P) /\
    self_id l = id /\ closed l = false /\ is_Some (uv_loop l) /\
    excepthook l = default_hook /\ exc_value l = None /\
    handles l = ∅ /\ requests l = ∅ /\
    next_id P' = S id /\
    class_default P' = class_default P /\
    class_loops P' = {[ id ]} ∪ class_loops P /\
    thread_loop P' = Some (Some id) /\
    log P' = log P.
Proof.
  unfold Loop_init.
  destruct (init_uv_loop default P) as [u | r0 |]; [| intros [=] | intros [=]].
  destruct (init_allocator allocator buffer_size P) as [a | r0 |];
    [| intros [=] | intros [=]].
  destruct locked; [intros [=] |].
  intros [= <- <-]. split; [reflexivity |]. split; [reflexivity |].
  eexists; cbn; repeat split; eauto.
Qed.

Lemma Loop_new_err allocator default buffer_size (P : Process) r P' :
  Loop_new allocator default buffer_size P = (Err r, P') -> P' = dropped P.
Proof.
  unfold Loop_new. intros Hnew.
  apply (Loop_init_not_ok _ _ _ _ _ _ _ Hnew). discriminate.
Qed.

Lemma Loop_new_ok allocator default buffer_size (P : Process) id P' :
  Loop_new allocator default buffer_size P = (Ok id, P') ->
  id = next_id P /\
  exists l,
    objects P' = <[ id := l ]> (objects P) /\
    self_id l = id /\ closed l = false /\ is_Some (uv_loop l) /\
    excepthook l = default_hook /\ exc_value l = None /\
    handles l = ∅ /\ requests l = ∅ /\
    next_id P' = S id /\
    class_default P' = class_default P /\
    class_loops P' = {[ id ]} ∪ class_loops P /\
    thread_loop P' = Some (Some id) /\
    log P' = log P.
Proof. unfold Loop_new. intros Hnew. now apply Loop_init_ok in Hnew. Qed.

Lemma world_consistent (P : Process) id l :
  registry_ok P -> objects P !! id = Some l -> consistent (world_of P l).
Proof.
  intros [Hobj Hloops _ Hthread] Hl. split; cbn.
  - destruct Hthread as [Hempty | Hsome]; [| exact Hsome].
    rewrite Hempty in Hl. now rewrite lookup_empty in Hl.
  - intros Hopen. destruct (Hobj id l Hl) as (Hid & _ & Huv).
    split; [| auto]. rewrite Hid. apply Hloops. eauto.
Qed.

Lemma startup_ok out err : registry_ok (startup (A:=A) out err).
Proof.
  split; cbn.
  - intros id l Hl. now rewrite lookup_empty in Hl.
  - intros id. split.
    + intros Hin. now apply elem_of_empty in Hin.
    + intros (l & Hl & _). now rewrite lookup_empty in Hl.
  - intros d [=].
  - now left.
Qed.

Lemma dropped_ok (P : Process) : registry_ok P -> registry_ok (dropped P).
Proof.
  intros [Hobj Hloops Hdef Hthread]. split; cbn; try assumption.
  intros id l Hl. destruct (Hobj id l Hl) as (Hid & Hlt & Huv).
  repeat split; [exact Hid | lia | exact Huv].
Qed.

Lemma Loop_init_registry_ok locked allocator default buffer_size (P : Process) :
  registry_ok P ->
  registry_ok (Loop_init locked allocator default buffer_size P).2.
Proof.
  intros Hok.
  destruct (Loop_init locked allocator default buffer_size P) as [r P'] eqn:Hnew.
  destruct r as [id | r |]; cbn.
  - apply Loop_init_ok in Hnew
      as (_ & -> & l & Hobjs & Hid & Hopen & Huv & _ & _ & _ & _ & Hnext & Hdef
            & Hloops & Hthread & _).
    destruct Hok as [Hobj Hreg Hd _]. split.
    + intros id' l'. rewrite Hobjs, Hnext.
      destruct (decide (next_id P = id')) as [<- | Hne].
      * rewrite lookup_insert_eq. intros [= <-]. repeat split; [exact Hid | lia | auto].
      * rewrite lookup_insert_ne by exact Hne. intros Hl'.
        destruct (Hobj id' l' Hl') as (? & ? & ?). repeat split; [assumption | lia | assumption].
    + intros id'. rewrite Hobjs, Hloops, elem_of_union, elem_of_singleton.
      destruct (decide (next_id P = id')) as [<- | Hne].
      * rewrite lookup_insert_eq. split; [eauto | now left].
      * rewrite lookup_insert_ne by exact Hne. rewrite Hreg.
        split; [intros [-> | Hex]; [contradiction | exact Hex] | now right].
    + intros d. rewrite Hdef, Hobjs. intros Hsome.
      destruct (decide (next_id P = d)) as [<- | Hne].
      * rewrite lookup_insert_eq. eauto.
      * rewrite lookup_insert_ne by exact Hne. now apply Hd.
    + right. rewrite Hthread. eauto.
  - rewrite (Loop_init_not_ok _ _ _ _ _ _ _ Hnew) by discriminate.
    now apply dropped_ok.
  - rewrite (Loop_init_not_ok _ _ _ _ _ _ _ Hnew) by discriminate.
    now apply dropped_ok.
Qed.

Lemma Loop_new_registry_ok allocator default buffer_size (P : Process) :
  registry_ok P -> registry_ok (Loop_new allocator default buffer_size P).2.
Proof. apply Loop_init_registry_ok. Qed.

(** Under the lock the constructor never returns a loop, so
    [get_default] never assigns [Loop._default]. *)
Lemma get_default_cases i allocator buffer_size (P : Process) :
  class_default P = None ->
  (i = false /\ get_default i allocator buffer_size P = (Ok None, P)) \/
  (i = true /\
   ((get_default i allocator buffer_size P).1 = Hangs \/
    exists r, (get_default i allocator buffer_size P).1 = Err r) /\
   (get_default i allocator buffer_size P).2 = dropped P).
Proof.
  intros Hnone. unfold get_default. rewrite Hnone.
  destruct i; [right | left; now split]. split; [reflexivity |].
  destruct (Loop_init true allocator true buffer_size P) as [r P'] eqn:Hinit.
  destruct r as [id | r |].
  - apply Loop_init_ok in Hinit as (Hlocked & _). discriminate.
  - rewrite (Loop_init_not_ok _ _ _ _ _ _ _ Hinit) by discriminate.
    cbn. split; [right; eauto | reflexivity].
  - rewrite (Loop_init_not_ok _ _ _ _ _ _ _ Hinit) by discriminate.
    cbn. split; [now left | reflexivity].
Qed.

Lemma get_default_registry_ok i allocator buffer_size (P : Process) :
  registry_ok P -> registry_ok (get_default i allocator buffer_size P).2.
Proof.
  intros Hok. destruct (class_default P) as [d |] eqn:Hd.
  - unfold get_default. now rewrite Hd.
  - destruct (get_default_cases i allocator buffer_size P Hd)
      as [[_ ->] | (_ & _ & ->)]; [exact Hok | now apply dropped_ok].
Qed.

Lemma get_current_registry_ok i allocator default buffer_size (P : Process) :
  registry_ok P -> registry_ok (get_current i allocator default buffer_size P).2.
Proof.
  intros Hok. unfold get_current.
  pose proof (Loop_new_registry_ok allocator default buffer_size P Hok) as Hnew.
  destruct (thread_loop P) as [[cur |] |]; [exact Hok | |];
    (destruct i; [| exact Hok]);
    destruct (Loop_new allocator default buffer_size P) as [[id | r |] P'];
    exact Hnew.
Qed.

Lemma absorb_registry_ok (P : Process) id l o :
  registry_ok P -> objects P !! id = Some l ->
  registry_ok (absorb id (call o (world_of P l)).2 P).
Proof.
  intros Hok Hl. pose proof (world_consistent P id l Hok Hl) as Hcons.
  destruct (call_registry_step o (world_of P l) Hcons)
    as (Hid & Hdef & Hafter & Hcase).
  set (w' := (call o (world_of P l)).2) in *. cbn in Hid, Hdef, Hcase.
  destruct Hok as [Hobj Hreg Hd Hthread].
  destruct (Hobj id l Hl) as (Hself & Hlt & _). rewrite Hself in *.
  split; cbn.
  - intros id' l'. destruct (decide (id = id')) as [<- | Hne].
    + rewrite lookup_insert_eq. intros [= <-].
      repeat split; [exact Hid | exact Hlt |].
      intros Hopen. destruct Hafter as [_ Huv]. now apply Huv.
    + rewrite lookup_insert_ne by exact Hne. apply Hobj.
  - intros id'. destruct (decide (id = id')) as [<- | Hne].
    + rewrite lookup_insert_eq.
      destruct Hcase as [[Hclosed Hloops] | (Hwas & Hnow & Hloops)].
      * rewrite Hloops, Hreg, Hl. split.
        -- intros (l0 & [= <-] & Hopen). exists (self w'). split; congruence.
        -- intros (l0 & [= <-] & Hopen). exists l. split; congruence.
      * rewrite Hloops, elem_of_difference, elem_of_singleton. split.
        -- intros [_ Hnot]. now contradiction Hnot.
        -- intros (l0 & [= <-] & Hopen). congruence.
    + rewrite lookup_insert_ne by exact Hne.
      destruct Hcase as [[Hclosed Hloops] | (Hwas & Hnow & Hloops)].
      * rewrite Hloops. apply Hreg.
      * rewrite Hloops, elem_of_difference, elem_of_singleton, Hreg.
        split; [now intros [Hex _] | intros Hex; split; [exact Hex | congruence]].
  - intros d. rewrite Hdef. intros Hsome.
    destruct (decide (id = d)) as [<- | Hne].
    + rewrite lookup_insert_eq. eauto.
    + rewrite lookup_insert_ne by exact Hne. now apply Hd.
  - right. apply Hafter.
Qed.

Lemma act_registry_ok (a : action) (P : Process) :
  registry_ok P -> registry_ok (act a P).2.
Proof.
  intros Hok. destruct a as [al d s | i al s | i al d s | id o]; cbn [act].
  - pose proof (Loop_new_registry_ok al d s P Hok) as Hnew.
    now destruct (Loop_new al d s P).
  - pose proof (get_default_registry_ok i al s P Hok) as Hnew.
    now destruct (get_default i al s P).
  - pose proof (get_current_registry_ok i al d s P Hok) as Hnew.
    now destruct (get_current i al d s P).
  - unfold on. destruct (objects P !! id) as [l |] eqn:Hl; [| exact Hok].
    pose proof (absorb_registry_ok P id l o Hok Hl) as Hafter.
    now destruct (call o (world_of P l)) as [r w'].
Qed.

Lemma acts_registry_ok (steps : list action) (P : Process) :
  registry_ok P -> registry_ok (acts steps P).
Proof.
  revert P. induction steps as [| a rest IH]; intros P Hok; cbn.
  - exact Hok.
  - pose proof (act_registry_ok a P Hok) as Hafter.
    destruct (act a P) as [[|] P']; [now apply IH | exact Hafter].
Qed.

(** [Loop._default] is never assigned. *)
Lemma act_default_none (a : action) (P : Process) :
  registry_ok P -> class_default P = None -> class_default (act a P).2 = None.
Proof.
  intros Hok Hnone. destruct a as [al d s | i al s | i al d s | id o]; cbn [act].
  - destruct (Loop_new al d s P) as [[id | r |] P'] eqn:Hnew; cbn.
    + apply Loop_new_ok in Hnew
        as (_ & l & _ & _ & _ & _ & _ & _ & _ & _ & _ & Hdef & _).
      congruence.
    + unfold Loop_new in Hnew.
      now rewrite (Loop_init_not_ok _ _ _ _ _ _ _ Hnew) by discriminate.
    + unfold Loop_new in Hnew.
      now rewrite (Loop_init_not_ok _ _ _ _ _ _ _ Hnew) by discriminate.
  - destruct (get_default_cases i al s P Hnone) as [[_ Heq] | (_ & _ & Heq)].
    + now rewrite Heq.
    + destruct (get_default i al s P) as [r P']. cbn in *. now subst P'.
  - unfold get_current.
    destruct (thread_loop P) as [[cur |] |]; [exact Hnone | |];
      (destruct i; [| exact Hnone]);
      destruct (Loop_new al d s P) as [[id | r |] P'] eqn:Hnew; cbn;
      try (apply Loop_new_ok in Hnew
             as (_ & l & _ & _ & _ & _ & _ & _ & _ & _ & _ & Hdef & _);
           congruence);
      unfold Loop_new in Hnew;
      now rewrite (Loop_init_not_ok _ _ _ _ _ _ _ Hnew) by discriminate.
  - unfold on. destruct (objects P !! id) as [l |] eqn:Hl; [| exact Hnone].
    pose proof (world_consistent P id l Hok Hl) as Hcons.
    destruct (call_registry_step o (world_of P l) Hcons) as (_ & Hdef & _).
    destruct (call o (world_of P l)) as [r w']. cbn in *. congruence.
Qed.

Lemma acts_default_none (steps : list action) (P : Process) :
  registry_ok P -> class_default P = None ->
  class_default (acts steps P) = None.
Proof.
  revert P. induction steps as [| a rest IH]; intros P Hok Hnone; cbn.
  - exact Hnone.
  - pose proof (act_registry_ok a P Hok) as Hafter.
    pose proof (act_default_none a P Hok Hnone) as Hstill.
    destruct (act a P) as [[|] P']; [now apply IH | exact Hstill].
Qed.

(** X19.  Whatever a program does from startup (constructing loops,
    asking for the default or the current loop, calling methods),
    [Loop.get_loops()] is exactly the set of loops that have been
    constructed and are not closed. *)
Theorem registry_holds_the_open_loops (steps : list action) out err id :
  id ∈ get_loops (acts steps (startup (A:=A) out err)) <->
  exists l, objects (acts steps (startup (A:=A) out err)) !! id = Some l /\
            closed l = false.
Proof.
  apply (ok_loops _ (acts_registry_ok steps _ (startup_ok out err))).
Qed.

End RegistryFacts.

Section RegistryUse.

Import loop loop_inv registry.

Context `{registry.Lib} {A : Type} `{!registry.Truth A}.

#[local] Abbreviation Process := (registry.Process A).

(** X20.  Whatever a program has done from startup, [Loop._default] is
    still [None]: [get_default] with [instantiate=False] returns [None]
    and changes nothing, and with [instantiate=True] it never returns a
    loop.  It constructs the loop while it holds [Loop._global_lock],
    which [Loop.__init__] takes again to register the loop, so the call
    raises what the constructor raised before that point or does not
    return at all; it does not return when libuv has a default loop and
    [ffi.new] provides the buffer. *)
Theorem get_default_never_returns_a_loop (steps : list action) out err
    allocator buffer_size :
  let P := acts steps (startup (A:=A) out err) in
  class_default P = None /\
  get_default false allocator buffer_size P = (Ok None, P) /\
  (forall i d P', get_default i allocator buffer_size P <> (Ok (Some d), P')) /\
  ((get_default true allocator buffer_size P).1 = Hangs \/
   exists r, (get_default true allocator buffer_size P).1 = Err r) /\
  (is_Some uv_default_loop -> ffi_new_fails buffer_size = None ->
   (get_default true allocator buffer_size P).1 = Hangs).
Proof.
  intros P.
  assert (Hnone : class_default P = None)
    by (apply acts_default_none; [apply startup_ok | reflexivity]).
  split; [exact Hnone |]. split; [| split; [| split]]; cycle 3.
  { intros [u Hu] Hroom. unfold get_default, Loop_init, init_uv_loop,
      init_allocator.
    rewrite Hnone, Hu, Hroom.
    destruct allocator as [a |]; [destruct (truth a) |]; reflexivity. }
  - destruct (get_default_cases false allocator buffer_size P Hnone)
      as [[_ Heq] | (Hno & _)]; [exact Heq | discriminate].
  - intros i d P' Hget.
    destruct (get_default_cases i allocator buffer_size P Hnone)
      as [[_ Heq] | (_ & [Hhang | [r Herr]] & _)]; rewrite Hget in *;
      discriminate.
  - destruct (get_default_cases true allocator buffer_size P Hnone)
      as [[Hno _] | (_ & Hend & _)]; [discriminate | exact Hend].
Qed.

(** X21.  A constructor that raises leaves no trace but a used-up
    identity: the objects, the registry, the default loop and the
    thread's current loop are as before.  The same holds for
    [get_default] and [get_current] when they raise. *)
Theorem failed_construction_registers_nothing allocator default buffer_size
    i (P : Process) :
  (forall r P', Loop_new allocator default buffer_size P = (Err r, P') ->
     objects P' = objects P /\ get_loops P' = get_loops P /\
     class_default P' = class_default P /\ thread_loop P' = thread_loop P) /\
  (forall r P', get_default i allocator buffer_size P = (Err r, P') ->
     objects P' = objects P /\ get_loops P' = get_loops P /\
     class_default P' = class_default P /\ thread_loop P' = thread_loop P) /\
  (forall r P', get_current i allocator default buffer_size P = (Err r, P') ->
     objects P' = objects P /\ get_loops P' = get_loops P /\
     class_default P' = class_default P /\ thread_loop P' = thread_loop P).
Proof.
  split; [| split]; intros r P'.
  - intros Hnew. apply Loop_new_err in Hnew as ->. now repeat split.
  - destruct (class_default P) as [d |] eqn:Hd.
    + unfold get_default. rewrite Hd. discriminate.
    + intros Hget.
      destruct (get_default_cases i allocator buffer_size P Hd)
        as [[_ Heq] | (_ & _ & Heq)]; rewrite Hget in Heq;
        [discriminate |].
      cbn in Heq. subst P'. cbn. now repeat split.
  - unfold get_current.
    destruct (thread_loop P) as [[cur |] |] eqn:Ht; [discriminate | |];
      (destruct i; [| discriminate]);
      destruct (Loop_new allocator default buffer_size P)
        as [[id | r0 |] P0] eqn:Hnew; try discriminate;
      intros [= <- <-]; apply Loop_new_err in Hnew as ->; cbn;
      now repeat split.
Qed.

(** X22.  A loop the constructor returns is new, open, registered
    beside the loops that were, and the thread's current loop:
    [get_current] returns it without making another. *)
Theorem new_loop_is_registered_and_current
    allocator default buffer_size (P : Process) id P' :
  registry_ok P ->
  Loop_new allocator default buffer_size P = (Ok id, P') ->
  (id ∉ get_loops P) /\
  objects P !! id = None /\
  get_loops P' = {[ id ]} ∪ get_loops P /\
  (exists l, objects P' !! id = Some l /\ closed l = false /\
             excepthook l = default_hook /\ exc_value l = None) /\
  (forall i allocator' default' buffer_size',
     get_current i allocator' default' buffer_size' P' = (Ok (Some id), P')).
Proof.
  intros [Hobj Hreg _ _] Hnew.
  apply Loop_new_ok in Hnew
    as (-> & l & Hobjs & _ & Hopen & _ & Hhook & Hexc & _ & _ & _ & _
          & Hloops & Hthread & _).
  assert (Hfresh : objects P !! next_id P = None).
  { destruct (objects P !! next_id P) as [l0 |] eqn:Hl0; [| reflexivity].
    destruct (Hobj _ _ Hl0) as (_ & Hlt & _). lia. }
  split; [| split; [exact Hfresh | split; [exact Hloops | split]]].
  - intros Hin. apply Hreg in Hin as (l0 & Hl0 & _). congruence.
  - exists l. rewrite Hobjs, lookup_insert_eq. auto.
  - intros i allocator' default' buffer_size'. unfold get_current.
    now rewrite Hthread.
Qed.

(** X24.  Making a loop and closing it again gives the registry back
    as it was; the thread is then left without a current loop, so
    [get_current] with [instantiate=False] returns [None]. *)
Theorem construct_then_close_restores_registry
    allocator default buffer_size (P : Process) id P1 P2 :
  registry_ok P ->
  Loop_new allocator default buffer_size P = (Ok id, P1) ->
  on id close P1 = Some (Return tt, P2) ->
  get_loops P2 = get_loops P /\
  thread_loop P2 = Some None /\
  (forall allocator' default' buffer_size',
     get_current false allocator' default' buffer_size' P2 = (Ok None, P2)).
Proof.
  intros Hok Hnew Hclose.
  pose proof (Loop_new_registry_ok allocator default buffer_size P Hok) as Hok1.
  rewrite Hnew in Hok1. cbn in Hok1.
  assert (Hfresh : id ∉ get_loops P).
  { destruct Hok as [Hobj Hreg _ _]. intros Hin.
    apply Hreg in Hin as (l0 & Hl0 & _).
    destruct (Hobj _ _ Hl0) as (_ & Hlt & _).
    apply Loop_new_ok in Hnew as (-> & _). lia. }
  apply Loop_new_ok in Hnew
    as (-> & l & Hobjs & Hid & Hopen & [u Hu] & _ & _ & _ & _ & _ & _
          & Hloops & Hthread & _).
  unfold on in Hclose. rewrite Hobjs, lookup_insert_eq in Hclose.
  pose proof (world_consistent P1 (next_id P) l Hok1) as Hcons.
  rewrite Hobjs, lookup_insert_eq in Hcons. specialize (Hcons eq_refl).
  destruct Hcons as [_ Hreg]. cbn in Hreg. destruct (Hreg Hopen) as [Hin _].
  destruct (uv_loop_close u) as [code u'] eqn:Hlib.
  destruct (Z.lt_ge_cases code 0) as [Hneg | Hcode].
  - rewrite (close_refused (world_of P1 l) u code u' Hopen Hu Hlib Hneg) in Hclose.
    discriminate.
  - destruct (close_accepted (world_of P1 l) u code u' (Some (next_id P))
                Hopen Hu Hlib Hcode Hin Hthread)
      as (w' & Heq & _ & _ & _ & Hrem & Htl & _).
    rewrite Heq in Hclose. injection Hclose as <-. cbn in Hrem, Htl.
    rewrite Hid in Hrem, Htl.
    destruct (decide (Some (next_id P) = Some (next_id P))) as [_ | Hne];
      [| contradiction].
    assert (Hback : Loop_loops w' = get_loops P).
    { rewrite Hrem, Hloops. apply set_eq. intros x.
      rewrite elem_of_difference, elem_of_union, elem_of_singleton.
      unfold get_loops in *. split.
      - intros [[-> | Hin'] Hnot]; [contradiction | exact Hin'].
      - intros Hin'. split; [now right | intros ->; contradiction]. }
    split; [exact Hback | split; [exact Htl |]].
    intros allocator' default' buffer_size'. unfold get_current. cbn.
    now rewrite Htl.
Qed.

End RegistryUse.

(** ** The further facts on concrete stores *)

Import more_samples.

Lemma open_world_consistent : loop_inv.consistent open_world.
Proof.
  split; cbn; [eauto |]. intros _. split; [| eauto].
  now apply elem_of_singleton.
Qed.

Lemma busy_world_consistent : loop_inv.consistent busy_world.
Proof.
  split; cbn; [eauto |]. intros _. split; [| eauto].
  now apply elem_of_singleton.
Qed.

Lemma refused_close_leaves_loop_open_witness :
  (loop.close busy_world).1 = Raise (UVError (-16)) /\
  loop.closed (loop.self (loop.close busy_world).2) = false.
Proof.
  destruct (refused_close_leaves_loop_open busy_world 2 (-16) 2
              eq_refl eq_refl eq_refl ltac:(lia))
    as (Hraise & Hopen & _).
  split; assumption.
Defined.

Lemma accepted_close_unregisters_witness :
  (loop.close open_world).1 = Return tt /\
  loop.closed (loop.self (loop.close open_world).2) = true.
Proof.
  destruct (accepted_close_unregisters open_world 0 0 0
              open_world_consistent eq_refl eq_refl eq_refl ltac:(lia))
    as (Hret & Hclosed & _).
  split; assumption.
Defined.

Lemma consistent_through_calls_witness :
  loop_inv.consistent
    (loop.after [loop.Run loop.ONCE; loop.Close; loop.Stop; loop.Close]
       busy_world).
Proof. apply consistent_through_calls. exact busy_world_consistent. Defined.


Lemma default_excepthook_logs_and_stops_witness :
  (loop.handle_exception a_traceback open_world).1 = Return tt.
Proof.
  apply (default_excepthook_logs_and_stops a_traceback open_world
           eq_refl eq_refl).
  right. cbn. eauto.
Defined.

Lemma default_excepthook_mute_exits_witness :
  (loop.handle_exception a_traceback mute_world).1 = Raise (SystemExit 1).
Proof.
  apply (default_excepthook_mute_exits a_traceback mute_world eq_refl eq_refl).
Defined.

Example close_all_handles_of_two :
  length (loop.events (loop.close_all_handles (Some 9%nat) busy_world).2) = 2%nat /\
  In (loop.HandleClose 5%nat (Some 9%nat))
     (loop.events (loop.close_all_handles (Some 9%nat) busy_world).2) /\
  In (loop.HandleClose 6%nat (Some 9%nat))
     (loop.events (loop.close_all_handles (Some 9%nat) busy_world).2).
Proof. vm_compute. auto. Qed.

Lemma second_read_gets_no_buffer_witness :
  (loop.uv_alloc_cb 2%nat 65536 a_buf
     (loop.uv_alloc_cb 1%nat 65536 a_buf open_world).1).2
  = {| buf_base := NULL; buf_len := 0 |}.
Proof.
  apply (second_read_gets_no_buffer open_world 1%nat 65536 a_buf 2%nat 65536 a_buf).
  reflexivity.
Defined.

Lemma closing_pipe_refuses_witness :
  pipe_setup.Pipe_open 3 closing_pipe = (Raise ClosedHandleError, closing_pipe) /\
  pipe_setup.Pipe_bind "/tmp/test.sock" closing_pipe
  = (Raise ClosedHandleError, closing_pipe).
Proof.
  destruct (closing_pipe_refuses closing_pipe 3 "/tmp/test.sock"%string 4
              (fun cls self => (Return cls, self)) eq_refl)
    as (Hopen & Hbind & _).
  split; assumption.
Defined.

Lemma setup_status_surfaces_witness :
  pipe_setup.Pipe_open (-1) long_pipe = (Raise (UVError (-9)), long_pipe).
Proof.
  apply (proj1 (setup_status_surfaces long_pipe (-1) "/tmp/test.sock"%string
                  eq_refl) (-9) long_name).
  reflexivity.
Defined.

Example bind_names_the_pipe :
  pipe_setup.Pipe_bind "uv" long_pipe
  = (Return tt, {| pipe.state := pipe.Open; pipe.uv_pipe := [x75; x76] |}).
Proof. reflexivity. Qed.

(** An abstract-namespace name comes back as the empty string. *)
Lemma name_is_cut_at_nul_witness :
  (pipe.sockname abstract_pipe []).1 = Return ""%string.
Proof.
  apply (name_is_cut_at_nul (H:=named_lib) named_query abstract_pipe
           abstract_name eq_refl).
  apply named_query_answers. vm_compute. reflexivity.
Defined.

Lemma connect_bad_address_witness :
  (@tcp.connect refusing_env "nowhere" 80 None (fresh_tcp refusing_env tt)).1
  = Raise ValueError /\
  tcp.self (@tcp.connect refusing_env "nowhere" 80 None
              (fresh_tcp refusing_env tt)).2
  = tcp.self (fresh_tcp refusing_env tt).
Proof.
  apply (@connect_bad_address refusing_env). reflexivity.
Defined.

(** A refused bind: the address is stored all the same. *)
Example bind_refused :
  @tcp_bind.TCP_bind (answering_env 0) (binding (-98)) "0.0.0.0" 80 0
    (fresh_tcp (answering_env 0) tt)
  = (Raise (UVError (-98)),
     @tcp.mk_world (answering_env 0) []
       (@tcp.mk_tcp (answering_env 0) tt (Some ("0.0.0.0"%string, 80)) ∅
          pipe.Open)).
Proof. reflexivity. Qed.

Lemma new_loop_is_registered_and_current_witness :
  registry.get_loops one_loop = {[ 0%nat ]} ∪ registry.get_loops at_startup /\
  registry.get_current false None false 0 one_loop
  = (registry.Ok (Some 0%nat), one_loop).
Proof.
  destruct (new_loop_is_registered_and_current None false 65536
              at_startup 0%nat one_loop (startup_ok true true))
    as (_ & _ & Hloops & _ & Hcurrent).
  - vm_compute. reflexivity.
  - split; [exact Hloops | apply Hcurrent].
Defined.

Lemma construct_then_close_restores_registry_witness :
  let closed_again :=
    match registry.on 0%nat loop.close one_loop with
    | Some (_, P) => P
    | None => one_loop
    end in
  registry.get_loops closed_again = registry.get_loops at_startup.
Proof.
  intros closed_again.
  destruct (construct_then_close_restores_registry None false 65536
              at_startup 0%nat one_loop closed_again (startup_ok true true))
    as (Hloops & _).
  - vm_compute. reflexivity.
  - vm_compute. reflexivity.
  - exact Hloops.
Defined.

Lemma bind_keeps_address_when_refused_witness :
  tcp.tcp_sockaddr
    (tcp.self (@tcp_bind.TCP_bind (answering_env 0) (binding (-98)) "0.0.0.0" 80 0
                 (fresh_tcp (answering_env 0) tt)).2)
  = Some ("0.0.0.0"%string, 80).
Proof.
  apply (proj1 (@bind_keeps_address_when_refused (answering_env 0) (binding (-98))
                  (fresh_tcp (answering_env 0) tt) "0.0.0.0"%string 80 0)
           ("0.0.0.0"%string, 80) (-98) (tt : @tcp.uv_tcp_t (answering_env 0)));
    reflexivity.
Defined.

(** [Loop(buffer_size=2**63)]: the default allocator's [ffi.new]
    raises, and nothing is registered. *)
Lemma failed_construction_registers_nothing_witness :
  registry.get_loops (registry.Loop_new None false (2 ^ 63) one_loop).2
  = registry.get_loops one_loop.
Proof.
  apply (proj1 (failed_construction_registers_nothing None false (2 ^ 63) true
                  one_loop) (registry.Other OverflowError)).
  vm_compute. reflexivity.
Defined.

(** After [Loop()], [get_default()] does not come back, and
    [get_default(instantiate=False)] returns [None]. *)
Lemma get_default_never_returns_a_loop_witness :
  (registry.get_default true None 65536 one_loop).1 = registry.Hangs /\
  registry.get_default false None 65536 one_loop = (registry.Ok None, one_loop).
Proof.
  destruct (get_default_never_returns_a_loop (A:=unit)
              [registry.New None false 65536] true true None 65536)
    as (_ & Hnone & _ & _ & Hhangs).
  split; [| exact Hnone].
  apply Hhangs; [cbn; eauto | reflexivity].
Defined.

(** The call that does not come back has registered nothing, and an
    oversized buffer makes it raise instead. *)
Example get_default_hangs :
  registry.get_loops (registry.get_default true None 65536 one_loop).2
  = registry.get_loops one_loop /\
  (registry.get_default true None (2 ^ 63) one_loop).1
  = registry.Err (registry.Other OverflowError).
Proof. split; reflexivity. Qed.

(** Two loops made, the first closed: the registry holds the second
    only. *)
Lemma registry_holds_the_open_loops_witness :
  1%nat ∈ registry.get_loops
            (registry.acts
               [registry.New None false 65536;
                registry.New None false 65536;
                registry.Method 0%nat loop.Close]
               (registry.startup (A:=unit) true true)).
Proof.
  apply registry_holds_the_open_loops.
  eexists. split; vm_compute; reflexivity.
Defined.

Example closed_loop_leaves_registry :
  0%nat ∉ registry.get_loops
            (registry.acts
               [registry.New None false 65536;
                registry.New None false 65536;
                registry.Method 0%nat loop.Close]
               (registry.startup (A:=unit) true true)).
Proof.
  intros Hin.
  apply (registry.ok_loops _
           (acts_registry_ok _ _ (startup_ok (A:=unit) true true))) in Hin
    as (l & Hl & Hopen).
  vm_compute in Hl. injection Hl as <-. discriminate Hopen.
Qed.
